(** * ImageBatcher: batching and preprocessing of images for inference

    A shallow embedding of [python/infer/batcher.py] and the properties of
    its batching policy, layout inference, discovery of images and per-batch
    assembly.

    Conventions of the embedding.
    - Python integers are [Z]; [len] of a list is [Z.of_nat (length l)].
    - A raised exception is the [Err] case of [result]; the exception class
      is kept, and of the message the constant text only (the interpolated
      path is left out).
    - [pathlib.Path] values are lists of path components.
    - The file system, the random source, the image decoder and the
      letterbox transform are collaborators, passed as records. *)

From Stdlib Require Import ZArith List Bool Arith Lia String Ascii.
From Stdlib Require Import Strings.Byte.
From Stdlib Require Import Permutation Sorted Mergesort Orders.
Import ListNotations.

Local Open Scope Z_scope.

(** ** Exceptions and results *)

Inductive exn : Type :=
| ValueError (msg : string)
| ZeroDivisionError
| IndexError
| DecodeError.

Inductive result (A : Type) : Type :=
| Ok (a : A)
| Err (e : exn).

Arguments Ok {A} a.
Arguments Err {A} e.

Definition bind {A B : Type} (r : result A) (k : A -> result B) : result B :=
  match r with
  | Ok a => k a
  | Err e => Err e
  end.

Notation "x <- c1 ;; c2" := (bind c1 (fun x => c2))
  (at level 61, c1 at next level, right associativity).
Notation "' pat <- c1 ;; c2" := (bind c1 (fun x => match x with pat => c2 end))
  (at level 61, pat pattern, c1 at next level, right associativity).

Definition is_ok {A : Type} (r : result A) : bool :=
  match r with Ok _ => true | Err _ => false end.

(** The [ValueError]s of the module, by the place that raises them. *)
Definition NotFoundError : exn := ValueError "Directory not found".
Definition EmptyInputError : exn := ValueError "No image files found".
Definition NoValidImagesError : exn := ValueError "No valid image files found".
Definition InsufficientInputError : exn :=
  ValueError "Not enough images to create batches".

(** ** Python integer and list primitives *)

(** [a // b]: floor division; Rocq's [Z.div] rounds the same way. *)
Definition py_floordiv (a b : Z) : result Z :=
  if b =? 0 then Err ZeroDivisionError else Ok (a / b).

(** [int(a / b)]: true division followed by truncation toward zero.  The
    quotient of two integers whose sum is below 2^53 truncates to the exact
    integer quotient, so the float is not represented. *)
Definition py_int_truediv (a b : Z) : result Z :=
  if b =? 0 then Err ZeroDivisionError else Ok (Z.quot a b).

Definition len {A : Type} (l : list A) : Z := Z.of_nat (List.length l).

(** [range(n)]: empty when [n <= 0]. *)
Definition range (n : Z) : list Z := map Z.of_nat (seq 0 (Z.to_nat n)).

(** A slice bound, as [slice.indices] resolves it for step 1. *)
Definition clamp_index (n i : Z) : Z :=
  if i <? 0 then Z.max (i + n) 0 else Z.min i n.

(** [l[lo:hi]] *)
Definition py_slice {A : Type} (l : list A) (lo hi : Z) : list A :=
  let s := clamp_index (len l) lo in
  let e := clamp_index (len l) hi in
  firstn (Z.to_nat (e - s)) (skipn (Z.to_nat s) l).

(** ** Paths and the file system *)

Definition path : Type := list string.

Fixpoint path_compare (p q : path) : comparison :=
  match p, q with
  | [], [] => Eq
  | [], _ :: _ => Lt
  | _ :: _, [] => Gt
  | a :: p', b :: q' =>
      match String.compare a b with
      | Eq => path_compare p' q'
      | c => c
      end
  end.

Module PathOrder <: TotalLeBool.
Definition t : Type := path.
Definition leb (p q : t) : bool :=
  match path_compare p q with Gt => false | _ => true end.
Lemma path_compare_antisym (p q : t) :
  path_compare p q = CompOpp (path_compare q p).
Proof.
  revert q; induction p as [|a p IH]; intros [|b q]; simpl; auto.
  rewrite (String.compare_antisym a b).
  destruct (String.compare b a); simpl; auto.
Qed.
Lemma leb_total (p q : t) : leb p q = true \/ leb q p = true.
Proof.
  unfold leb. rewrite (path_compare_antisym p q).
  destruct (path_compare q p); simpl; auto.
Qed.
End PathOrder.

Module PathSort := Sort PathOrder.

Definition path_le (p q : path) : Prop := is_true (PathOrder.leb p q).

(** [str.lower] on the ASCII range. *)
Definition lower_ascii (c : ascii) : ascii :=
  let n := nat_of_ascii c in
  if (andb (65 <=? n) (n <=? 90))%nat then ascii_of_nat (n + 32) else c.

Fixpoint lower (s : string) : string :=
  match s with
  | EmptyString => EmptyString
  | String c s' => String (lower_ascii c) (lower s')
  end.

(** The part of [s] from its last dot on ([s[s.rfind('.'):]]), if any. *)
Fixpoint from_last_dot (s : string) : option string :=
  match s with
  | EmptyString => None
  | String c s' =>
      match from_last_dot s' with
      | Some t => Some t
      | None => if Ascii.eqb c "." then Some s else None
      end
  end.

(** [PurePath.suffix] of a final component: with [i = name.rfind('.')], it
    is [name[i:]] when [0 < i < len(name) - 1] and empty otherwise. *)
Definition name_suffix (name : string) : string :=
  match name with
  | EmptyString => EmptyString
  | String _ rest =>
      match from_last_dot rest with
      | Some t => if (1 <? String.length t)%nat then t else EmptyString
      | None => EmptyString
      end
  end.

Definition suffix (p : path) : string := name_suffix (last p EmptyString).

Record filesystem : Type := {
  fs_exists : path -> bool;
  fs_is_dir : path -> bool;
  fs_is_file : path -> bool;
  fs_listdir : path -> list string
}.

(** [Path.iterdir]: the direct entries, as child paths. *)
Definition iterdir (fs : filesystem) (p : path) : list path :=
  map (fun name => p ++ [name]) (fs_listdir fs p).

(** [random.shuffle]: some permutation, chosen by the random source. *)
Record rng : Type := {
  shuffle : list path -> list path;
  shuffle_perm : forall l, Permutation l (shuffle l)
}.

(** ** _find_images *)

Definition extensions : list string := [".jpg"; ".jpeg"; ".png"; ".bmp"]%string.

Definition is_image (fs : filesystem) (file_path : path) : bool :=
  fs_is_file fs file_path &&
  existsb (String.eqb (lower (suffix file_path))) extensions.

(** The expression bound to [images] before shuffling. *)
Definition discover (fs : filesystem) (input_path : path) : list path :=
  if fs_is_dir fs input_path
  then PathSort.sort (filter (is_image fs) (iterdir fs input_path))
  else [input_path].

Definition _find_images (fs : filesystem) (r : rng)
    (input_path : path) (shuffle_files : bool) : result (list path) :=
  if negb (fs_exists fs input_path) then Err NotFoundError else
  let images := discover fs input_path in
  let images := if shuffle_files then shuffle r images else images in
  match images with
  | [] => Err EmptyInputError
  | _ => Ok images
  end.

(** ** _handle_exact_batches and _handle_tensor_shape *)

Definition shape4 : Type := (Z * Z * Z * Z)%type.

Definition shape_0 (s : shape4) : Z := let '(n, _, _, _) := s in n.
Definition shape_1 (s : shape4) : Z := let '(_, d1, _, _) := s in d1.
Definition shape_2 (s : shape4) : Z := let '(_, _, d2, _) := s in d2.
Definition shape_3 (s : shape4) : Z := let '(_, _, _, d3) := s in d3.

(** The method updates [self.images] and [self.num_images]; both are
    passed in and returned. *)
Definition _handle_exact_batches (images : list path) (num_images batch_size : Z)
    (exact_batches : bool) : result (list path * Z) :=
  if exact_batches then
    q <- py_floordiv num_images batch_size ;;
    let num_images := batch_size * q in
    if num_images <? 1 then Err InsufficientInputError
    else Ok (py_slice images 0 num_images, num_images)
  else Ok (images, num_images).

(** Returns [(width, height)]. *)
Definition _handle_tensor_shape (shape : shape4) : Z * Z :=
  let width := -1 in
  let height := -1 in
  if shape_1 shape =? 3 then (shape_3 shape, shape_2 shape)
  else if shape_3 shape =? 3 then (shape_2 shape, shape_1 shape)
  else (width, height).

(** ** The batcher object and its construction *)

(** The attributes of the object; [self.dtype] is the element type the
    arrays below are built over. *)
Record ImageBatcher : Type := {
  images : list path;
  num_images : Z;
  shape : shape4;
  batch_size : Z;
  width : Z;
  height : Z;
  num_batches : Z;
  batches : list (list path)
}.

Definition __init__ (fs : filesystem) (r : rng) (input_path : path)
    (shape : shape4) (exact_batches shuffle_files : bool) : result ImageBatcher :=
  images <- _find_images fs r input_path shuffle_files ;;
  let num_images := len images in
  if num_images <? 1 then Err NoValidImagesError else
  let batch_size := shape_0 shape in
  '(images, num_images) <-
    _handle_exact_batches images num_images batch_size exact_batches ;;
  let '(width, height) := _handle_tensor_shape shape in
  q <- py_int_truediv (num_images - 1) batch_size ;;
  let num_batches := 1 + q in
  let batches :=
    map (fun i => py_slice images (i * batch_size) ((i + 1) * batch_size))
        (range num_batches) in
  Ok {| images := images; num_images := num_images; shape := shape;
        batch_size := batch_size; width := width; height := height;
        num_batches := num_batches; batches := batches |}.

(** ** Element types and arrays *)

(** A floating element type ([np.float16], [np.float32], ...), by the
    operations the batcher applies to its values and the laws of correctly
    rounded arithmetic they obey: conversion from [uint8] and division by
    [255.0] are monotone, [0 / 255.0] is [0] and [255 / 255.0] is [1]. *)
Record dtype : Type := {
  elem : Type;
  zero : elem;
  one : elem;
  le : elem -> elem -> Prop;
  astype : byte -> elem;
  div255 : elem -> elem;
  astype_mono : forall a b : byte,
    (Byte.to_N a <= Byte.to_N b)%N -> le (astype a) (astype b);
  div255_mono : forall x y : elem, le x y -> le (div255 x) (div255 y);
  div255_min : div255 (astype x00) = zero;
  div255_max : div255 (astype xff) = one
}.

(** A decoded colour image: [rows] x [cols] pixels of three [uint8]
    channels, row-major, as [cv2.imread] returns it (B, G, R). *)
Definition pixel : Type := (byte * byte * byte)%type.

Record raw_image : Type := {
  rows : nat;
  cols : nat;
  pixels : list pixel
}.

Definition raw_wf (im : raw_image) : Prop :=
  List.length (pixels im) = (rows im * cols im)%nat.

(** [cv2.cvtColor(image, cv2.COLOR_BGR2RGB)] *)
Definition cvtColor_BGR2RGB (im : raw_image) : raw_image :=
  {| rows := rows im; cols := cols im;
     pixels := map (fun '(b, g, r) => (r, g, b)) (pixels im) |}.

(** Channel [c] of a pixel. *)
Definition channel {A : Type} (c : nat) (p : A * A * A) : A :=
  let '(c0, c1, c2) := p in
  match c with
  | O => c0
  | S O => c1
  | _ => c2
  end.

Section Arrays.

Variable D : dtype.

(** A (height, width, channel) array of elements. *)
Record hwc_image : Type := {
  hwc_rows : nat;
  hwc_cols : nat;
  hwc_pixels : list (elem D * elem D * elem D)
}.

(** A three-dimensional array, row-major. *)
Record ndarray3 : Type := {
  dims3 : nat * nat * nat;
  data3 : list (elem D)
}.

(** A four-dimensional array, row-major. *)
Record ndarray4 : Type := {
  dims4 : nat * nat * nat * nat;
  data4 : list (elem D)
}.

(** [image.astype(dtype) / 255.0] *)
Definition normalize (im : raw_image) : hwc_image :=
  let f := fun v => div255 D (astype D v) in
  {| hwc_rows := rows im; hwc_cols := cols im;
     hwc_pixels := map (fun '(c0, c1, c2) => (f c0, f c1, f c2)) (pixels im) |}.

(** [np.transpose(image, (2, 0, 1))] *)
Definition transpose_201 (im : hwc_image) : ndarray3 :=
  {| dims3 := (3%nat, hwc_rows im, hwc_cols im);
     data3 := map (channel 0) (hwc_pixels im) ++
              map (channel 1) (hwc_pixels im) ++
              map (channel 2) (hwc_pixels im) |}.

(** [np.zeros(shape, dtype)] *)
Definition np_zeros (shape : shape4) : result ndarray4 :=
  let '(n, d1, d2, d3) := shape in
  if (n <? 0) || (d1 <? 0) || (d2 <? 0) || (d3 <? 0)
  then Err (ValueError "negative dimensions are not allowed")
  else
    let dims := (Z.to_nat n, Z.to_nat d1, Z.to_nat d2, Z.to_nat d3) in
    Ok {| dims4 := dims;
          data4 := repeat (zero D)
                     (Z.to_nat n * Z.to_nat d1 * Z.to_nat d2 * Z.to_nat d3) |}.

Definition slot_size (t : ndarray4) : nat :=
  let '(_, d1, d2, d3) := dims4 t in (d1 * d2 * d3)%nat.

(** [t[i]], as the flat list of its elements. *)
Definition slot (t : ndarray4) (i : nat) : list (elem D) :=
  firstn (slot_size t) (skipn (i * slot_size t) (data4 t)).

(** Broadcasting of one axis: extents agree, or the source extent is 1 and
    its single index is repeated. *)
Definition broadcastable (src dst : nat) : bool :=
  (src =? dst)%nat || (src =? 1)%nat.

Definition bidx (src i : nat) : nat := if (src =? 1)%nat then O else i.

Definition broadcast_to (im : ndarray3) (d1 d2 d3 : nat) : list (elem D) :=
  let '(a, b, c) := dims3 im in
  flat_map (fun i =>
    flat_map (fun j =>
      map (fun k =>
             nth (bidx a i * b * c + bidx b j * c + bidx c k) (data3 im) (zero D))
          (seq 0 d3))
      (seq 0 d2))
    (seq 0 d1).

(** [t[idx] = im] *)
Definition setitem (t : ndarray4) (idx : nat) (im : ndarray3) : result ndarray4 :=
  let '(n, d1, d2, d3) := dims4 t in
  let '(a, b, c) := dims3 im in
  if (n <=? idx)%nat then Err IndexError
  else if broadcastable a d1 && broadcastable b d2 && broadcastable c d3 then
    Ok {| dims4 := dims4 t;
          data4 := firstn (idx * slot_size t) (data4 t) ++
                   broadcast_to im d1 d2 d3 ++
                   skipn (S idx * slot_size t) (data4 t) |}
  else Err (ValueError "could not broadcast input array").

End Arrays.

Arguments hwc_rows {D} _.
Arguments hwc_cols {D} _.
Arguments hwc_pixels {D} _.
Arguments dims3 {D} _.
Arguments data3 {D} _.
Arguments dims4 {D} _.
Arguments data4 {D} _.
Arguments transpose_201 {D} im.
Arguments slot_size {D} t.
Arguments slot {D} t i.
Arguments broadcast_to {D} im d1 d2 d3.
Arguments setitem {D} t idx im.

(** ** Collaborators and per-image preprocessing *)

(** Calls made to the collaborators, in the order they are made. *)
Inductive call : Type :=
| Imread (image_path : path)
| Letterbox (image : raw_image) (new_shape : Z * Z).

Section Batcher.

Variable D : dtype.

(** The transform record returned by [letterbox]. *)
Variable T : Type.

(** [cv2.imread], which gives [None] for a source it cannot read or parse,
    and [python.utils.letterbox], which returns the transformed image and
    its transform record. *)
Record collaborators : Type := {
  imread : path -> option raw_image;
  letterbox : raw_image -> Z * Z -> raw_image * T
}.

Variable env : collaborators.

(** Modelled from the spec: the image decoder, [decode(path) ->
    raw_pixel_array | DecodeError].  Neither [cv2] nor
    [python.utils.letterbox], which receives what [cv2.imread] returns, is
    part of the sources; an image that cannot be read or parsed makes
    preprocessing raise [DecodeError]. *)
Definition decode (image_path : path) : result raw_image :=
  match imread env image_path with
  | Some image => Ok image
  | None => Err DecodeError
  end.

(** Returns the calls made and the (image, shape) pair or the exception. *)
Definition _preprocess_image (self : ImageBatcher) (image_path : path)
    : list call * result (ndarray3 D * T) :=
  match decode image_path with
  | Err e => ([Imread image_path], Err e)
  | Ok image =>
      let new_shape := (height self, width self) in
      let '(image', shape) := letterbox env image new_shape in
      let image' := normalize D (cvtColor_BGR2RGB image') in
      let image' := transpose_201 image' in
      ([Imread image_path; Letterbox image new_shape], Ok (image', shape))
  end.

(** ** ThreadPoolExecutor.map *)

(** One future per submitted item, empty until its worker completes. *)
Definition futures (X : Type) : Type := list (option X).

Definition set_result {X : Type} (i : nat) (x : X) (fs : futures X) : futures X :=
  if (i <? List.length fs)%nat then firstn i fs ++ Some x :: skipn (S i) fs
  else fs.

(** Workers complete in the order [sched]; each stores its outcome in its
    own future and adds its calls to the trace. *)
Fixpoint run_workers {X Y : Type} (f : X -> list call * Y) (items : list X)
    (sched : list nat) (fs : futures Y) : list call * futures Y :=
  match sched with
  | [] => ([], fs)
  | i :: sched' =>
      match nth_error items i with
      | Some x =>
          let '(tr, y) := f x in
          let '(tr', fs') := run_workers f items sched' (set_result i y fs) in
          (tr ++ tr', fs')
      | None => run_workers f items sched' fs
      end
  end.

(** Reading the results in submission order: the first exception met is
    raised. *)
Fixpoint results {Y : Type} (fs : list (result Y)) : result (list Y) :=
  match fs with
  | [] => Ok []
  | r :: fs' =>
      y <- r ;;
      ys <- results fs' ;;
      Ok (y :: ys)
  end.

Fixpoint all_done {Y : Type} (fs : futures Y) : option (list Y) :=
  match fs with
  | [] => Some []
  | None :: _ => None
  | Some y :: fs' =>
      match all_done fs' with
      | Some ys => Some (y :: ys)
      | None => None
      end
  end.

(** [list(executor.map(f, items))] inside [with ThreadPoolExecutor(...)]:
    the block is left once every worker has completed; [None] stands for a
    worker that never does. *)
Definition executor_map {X Y : Type} (f : X -> list call * result Y)
    (items : list X) (sched : list nat) : list call * option (result (list Y)) :=
  let '(tr, fs) :=
    run_workers f items sched (repeat None (List.length items)) in
  (tr, option_map results (all_done fs)).

(** ** Iteration *)

(** The [for idx, (im, shape) in enumerate(results)] loop. *)
Fixpoint fill (batch_data : ndarray4 D) (batch_shape : list T) (idx : nat)
    (rs : list (ndarray3 D * T)) : result (ndarray4 D * list T) :=
  match rs with
  | [] => Ok (batch_data, batch_shape)
  | (im, shape) :: rs' =>
      batch_data <- setitem batch_data idx im ;;
      fill batch_data (batch_shape ++ [shape]) (S idx) rs'
  end.

Definition batch_tuple : Type := (ndarray4 D * list path * list T)%type.

(** The body of the [for batch_images in self.batches] loop, up to and
    including its [yield]. *)
Definition produce_batch (self : ImageBatcher) (batch_images : list path)
    (sched : list nat) : list call * option (result batch_tuple) :=
  match np_zeros D (shape self) with
  | Err e => ([], Some (Err e))
  | Ok batch_data =>
      if (List.length batch_images =? 0)%nat
      then ([], Some (Err (ValueError "max_workers must be greater than 0")))
      else
        let '(tr, rs) :=
          executor_map (_preprocess_image self) batch_images sched in
        (tr, option_map (fun rs =>
               rs <- rs ;;
               '(batch_data, batch_shape) <- fill batch_data [] 0 rs ;;
               Ok (batch_data, batch_images, batch_shape)) rs)
  end.

(** How a traversal ends. *)
Inductive ending : Type :=
| StopIteration
| Raised (e : exn)
| Blocked.

(** The generator, run to its end: the calls made, the tuples yielded and
    how it ended.  [scheds k] is the completion order of the workers of the
    [k]-th batch. *)
Fixpoint iter_from (self : ImageBatcher) (scheds : nat -> list nat) (k : nat)
    (bs : list (list path)) : list call * list batch_tuple * ending :=
  match bs with
  | [] => ([], [], StopIteration)
  | batch_images :: bs' =>
      match produce_batch self batch_images (scheds k) with
      | (tr, None) => (tr, [], Blocked)
      | (tr, Some (Err e)) => (tr, [], Raised e)
      | (tr, Some (Ok y)) =>
          let '(tr', ys, e) := iter_from self scheds (S k) bs' in
          (tr ++ tr', y :: ys, e)
      end
  end.

Definition __iter__ (self : ImageBatcher) (scheds : nat -> list nat)
    : list call * list batch_tuple * ending :=
  iter_from self scheds 0 (batches self).

(** What a batch is assembled to, its images taken in submission order. *)
Definition assemble (self : ImageBatcher) (batch_images : list path)
    : result batch_tuple :=
  batch_data <- np_zeros D (shape self) ;;
  if (List.length batch_images =? 0)%nat
  then Err (ValueError "max_workers must be greater than 0")
  else
    rs <- results (map (fun p => snd (_preprocess_image self p)) batch_images) ;;
    '(batch_data, batch_shape) <- fill batch_data [] 0 rs ;;
    Ok (batch_data, batch_images, batch_shape).

(** Yielded tuples and ending once the workers of every batch complete:
    the batches are assembled one after the other up to the first that
    raises. *)
Fixpoint assemble_all (self : ImageBatcher) (bs : list (list path))
    : list batch_tuple * ending :=
  match bs with
  | [] => ([], StopIteration)
  | b :: bs' =>
      match assemble self b with
      | Err e => ([], Raised e)
      | Ok y => let '(ys, e) := assemble_all self bs' in (y :: ys, e)
      end
  end.

End Batcher.

Arguments imread {T} _ _.
Arguments letterbox {T} _ _ _.

(** ** Specification vocabulary *)

(** Every worker of every batch completes. *)
Definition all_complete (scheds : nat -> list nat) (bs : list (list path))
    : Prop :=
  forall (k : nat) (batch : list path),
    nth_error bs k = Some batch ->
    forall i : nat, (i < List.length batch)%nat -> In i (scheds k).

(** The ceiling of [a / b], for [b > 0]. *)
Definition ceil_div (a b : Z) : Z := - (- a / b).

(** ** A small world to run the model in *)

Module Demo.

Definition path_eqb (p q : path) : bool :=
  match path_compare p q with Eq => true | _ => false end.

Definition data : path := ["data"%string].

Definition names : list string :=
  ["b.jpg"; "a.PNG"; "notes.txt"; "sub.png"; "c.jpeg"; "d.bmp"; "e.JPG"]%string.

Definition files : list path :=
  [["data"; "b.jpg"]; ["data"; "a.PNG"]; ["data"; "notes.txt"];
   ["data"; "c.jpeg"]; ["data"; "d.bmp"]; ["data"; "e.JPG"];
   ["single.txt"]]%string.

Definition dirs : list path :=
  [["data"]; ["data"; "sub.png"]; ["empty"]]%string.

(** A directory of five images, a text file and a sub-directory named like
    an image; an empty directory; a lone text file. *)
Definition fs : filesystem :=
  {| fs_exists := fun p => existsb (path_eqb p) (files ++ dirs);
     fs_is_dir := fun p => existsb (path_eqb p) dirs;
     fs_is_file := fun p => existsb (path_eqb p) files;
     fs_listdir := fun p => if path_eqb p data then names else [] |}.

Definition reversing : rng :=
  {| shuffle := @rev path; shuffle_perm := @Permutation_rev path |}.

Definition sorted_images : list path :=
  [["data"; "a.PNG"]; ["data"; "b.jpg"]; ["data"; "c.jpeg"];
   ["data"; "d.bmp"]; ["data"; "e.JPG"]]%string.

(** Exact arithmetic in steps of 1/255: the integer [k] stands for
    [k / 255], so a [uint8] value [v] converts to [255 * v] and the number 1
    is [255]. *)
Definition fixed_astype (v : byte) : Z := 255 * Z.of_N (Byte.to_N v).
Definition fixed_div255 (x : Z) : Z := x / 255.

Lemma fixed_astype_mono (a b : byte) :
  (Byte.to_N a <= Byte.to_N b)%N -> fixed_astype a <= fixed_astype b.
Proof. unfold fixed_astype. lia. Qed.

Lemma fixed_div255_mono (x y : Z) :
  x <= y -> fixed_div255 x <= fixed_div255 y.
Proof. intros H. apply Z.div_le_mono; lia. Qed.

Definition fixed255 : dtype :=
  {| elem := Z; zero := 0; one := 255; le := Z.le;
     astype := fixed_astype; div255 := fixed_div255;
     astype_mono := fixed_astype_mono; div255_mono := fixed_div255_mono;
     div255_min := eq_refl; div255_max := eq_refl |}.

(** The decoder gives every readable path a 1 x 1 image whose blue channel
    is the first character of the file name. *)
Definition image_of (p : path) : raw_image :=
  let v := match last p EmptyString with
           | String c _ => byte_of_ascii c
           | EmptyString => x00
           end in
  {| rows := 1; cols := 1; pixels := [(v, x80, xff)] |}.

(** A letterbox that fills the target with the first pixel of the image and
    records the size of the original. *)
Definition fill_letterbox (im : raw_image) (new_shape : Z * Z)
    : raw_image * (Z * Z) :=
  let '(h, w) := new_shape in
  ({| rows := Z.to_nat h; cols := Z.to_nat w;
      pixels := repeat (hd (x00, x00, x00) (pixels im))
                       (Z.to_nat h * Z.to_nat w) |},
   (Z.of_nat (rows im), Z.of_nat (cols im))).

(** Every path but those in [unreadable] decodes. *)
Definition env (unreadable : list path) : collaborators (Z * Z) :=
  {| imread := fun p =>
       if existsb (path_eqb p) unreadable then None else Some (image_of p);
     letterbox := fill_letterbox |}.

Definition unwrap (r : result ImageBatcher) : ImageBatcher :=
  match r with
  | Ok self => self
  | Err _ =>
      {| images := []; num_images := 0; shape := (0, 0, 0, 0); batch_size := 0;
         width := 0; height := 0; num_batches := 0; batches := [] |}
  end.

(** The batcher over the directory of five images. *)
Definition batcher (sh : shape4) (exact_batches : bool) : ImageBatcher :=
  unwrap (__init__ fs reversing data sh exact_batches false).

(** Workers complete in submission order, or in the reverse order. *)
Definition in_order (n : nat) : nat -> list nat := fun _ => seq 0 n.
Definition reversed (n : nat) : nat -> list nat := fun _ => rev (seq 0 n).

(** A traversal of the batcher of shape [sh]. *)
Definition run (sh : shape4) (exact_batches : bool) (unreadable : list path)
    (scheds : nat -> list nat)
    : list call * list (batch_tuple fixed255 (Z * Z)) * ending :=
  __iter__ fixed255 (Z * Z) (env unreadable) (batcher sh exact_batches) scheds.

(** Its [k]-th yielded tuple. *)
Definition yielded (sh : shape4) (exact_batches : bool)
    (unreadable : list path) (scheds : nat -> list nat) (k : nat)
    : batch_tuple fixed255 (Z * Z) :=
  nth k (snd (fst (run sh exact_batches unreadable scheds)))
      ({| dims4 := (0, 0, 0, 0)%nat; data4 := [] |}, [], []).

End Demo.

(** * Properties *)

(** ** Slices and ranges *)

Lemma len_nonneg {A : Type} (l : list A) : 0 <= len l.
Proof. unfold len; lia. Qed.

Lemma py_slice_nonneg {A : Type} (l : list A) (lo hi : Z) :
  0 <= lo ->
  0 <= hi ->
  py_slice l lo hi =
  firstn (Z.to_nat hi - Z.to_nat lo) (skipn (Z.to_nat lo) l).
Proof.
  intros Hlo Hhi. unfold py_slice, clamp_index.
  destruct (Z.ltb_spec lo 0); [lia|].
  destruct (Z.ltb_spec hi 0); [lia|].
  unfold len.
  destruct (Z_le_gt_dec lo (Z.of_nat (List.length l))) as [Hl|Hl].
  - rewrite (Z.min_l lo) by lia.
    destruct (Z_le_gt_dec hi (Z.of_nat (List.length l))) as [Hh|Hh].
    + rewrite (Z.min_l hi) by lia. f_equal. lia.
    + rewrite (Z.min_r hi) by lia.
      rewrite !firstn_all2; auto; rewrite length_skipn; lia.
  - rewrite (Z.min_r lo) by lia.
    rewrite !skipn_all2 by lia. now rewrite !firstn_nil.
Qed.

Lemma py_slice_prefix {A : Type} (l : list A) (hi : Z) :
  0 <= hi -> py_slice l 0 hi = firstn (Z.to_nat hi) l.
Proof.
  intros H. rewrite py_slice_nonneg by lia. simpl. now rewrite Nat.sub_0_r.
Qed.

Lemma range_length (n : Z) : List.length (range n) = Z.to_nat n.
Proof. unfold range. now rewrite length_map, length_seq. Qed.

(** Consecutive runs of [b] elements, put end to end, give a prefix. *)
Lemma concat_runs {A : Type} (l : list A) (b k : nat) :
  List.concat (map (fun i => firstn b (skipn (i * b) l)) (seq 0 k)) =
  firstn (k * b) l.
Proof.
  induction k as [|k IH].
  - reflexivity.
  - rewrite seq_S, map_app, concat_app, IH. simpl.
    rewrite app_nil_r.
    replace (b + k * b)%nat with (k * b + b)%nat by lia.
    rewrite <- (firstn_skipn (k * b) (firstn (k * b + b) l)).
    rewrite firstn_firstn, Nat.min_l by lia.
    f_equal. rewrite skipn_firstn_comm. f_equal. lia.
Qed.

Lemma batches_as_runs (l : list path) (b nb : Z) :
  1 <= b ->
  map (fun i => py_slice l (i * b) ((i + 1) * b)) (range nb) =
  map (fun i => firstn (Z.to_nat b) (skipn (i * Z.to_nat b) l))
      (seq 0 (Z.to_nat nb)).
Proof.
  intros Hb. unfold range. rewrite map_map. apply map_ext.
  intros i. rewrite py_slice_nonneg by nia.
  f_equal; [nia | f_equal; nia].
Qed.

(** ** Layout inference *)





(** The sentinel is returned only when neither position holds 3, for
    shapes whose other components are true extents. *)
Lemma handle_tensor_shape_sentinel_iff (n d1 d2 d3 : Z) :
  0 <= d1 -> 0 <= d2 -> 0 <= d3 ->
  (_handle_tensor_shape (n, d1, d2, d3) = (-1, -1) <-> d1 <> 3 /\ d3 <> 3).
Proof.
  intros H1 H2 H3. unfold _handle_tensor_shape; simpl.
  destruct (Z.eqb_spec d1 3); [|destruct (Z.eqb_spec d3 3)].
  - split; [intros E; inversion E; lia | intros [? _]; contradiction].
  - split; [intros E; inversion E; lia | intros [_ ?]; contradiction].
  - split; auto.
Qed.

(** ** Construction *)

(** What a successful construction has computed, step by step. *)
Lemma init_ok_inv fs r input_path sh exact_batches shuffle_files self :
  __init__ fs r input_path sh exact_batches shuffle_files = Ok self ->
  exists found,
    _find_images fs r input_path shuffle_files = Ok found /\
    1 <= len found /\
    shape self = sh /\
    batch_size self = shape_0 sh /\
    batch_size self <> 0 /\
    _handle_exact_batches found (len found) (shape_0 sh) exact_batches =
      Ok (images self, num_images self) /\
    (width self, height self) = _handle_tensor_shape sh /\
    num_batches self = 1 + Z.quot (num_images self - 1) (batch_size self) /\
    batches self =
      map (fun i => py_slice (images self) (i * batch_size self)
                             ((i + 1) * batch_size self))
          (range (num_batches self)).
Proof.
  unfold __init__. intros H.
  destruct (_find_images fs r input_path shuffle_files) as [found|e];
    simpl in H; [|discriminate].
  destruct (Z.ltb_spec (len found) 1); [discriminate|].
  destruct (_handle_exact_batches found (len found) (shape_0 sh) exact_batches)
    as [[imgs n]|e] eqn:Hex; simpl in H; [|discriminate].
  destruct (_handle_tensor_shape sh) as [w h] eqn:Hts.
  unfold py_int_truediv in H.
  destruct (Z.eqb_spec (shape_0 sh) 0); simpl in H; [discriminate|].
  inversion H; subst; simpl. exists found.
  repeat split; auto; lia.
Qed.

Lemma find_images_nonempty fs r input_path shuffle_files found :
  _find_images fs r input_path shuffle_files = Ok found -> 1 <= len found.
Proof.
  unfold _find_images.
  destruct (negb (fs_exists fs input_path)); [discriminate|].
  destruct (if shuffle_files then _ else _) eqn:E; [discriminate|].
  intros H; inversion H; subst. unfold len; simpl; lia.
Qed.

(** The method on its own, for a batch size of at least 1. *)
Lemma handle_exact_batches_true (l : list path) (b : Z) :
  1 <= b ->
  _handle_exact_batches l (len l) b true =
  if len l <? b then Err InsufficientInputError
  else Ok (firstn (Z.to_nat (b * (len l / b))) l, b * (len l / b)).
Proof.
  intros Hb. unfold _handle_exact_batches, py_floordiv.
  destruct (Z.eqb_spec b 0); [lia|]. simpl.
  pose proof (len_nonneg l) as Hn.
  pose proof (Z.div_pos (len l) b Hn ltac:(lia)) as Hq.
  destruct (Z.ltb_spec (len l) b) as [Hlt|Hge].
  - rewrite Z.div_small by lia. rewrite Z.mul_0_r. reflexivity.
  - assert (1 <= len l / b).
    { apply Z.div_le_lower_bound; lia. }
    destruct (Z.ltb_spec (b * (len l / b)) 1); [nia|].
    rewrite py_slice_prefix by nia. reflexivity.
Qed.

Lemma init_after_exact fs r input_path sh exact_batches shuffle_files
    found imgs n :
  _find_images fs r input_path shuffle_files = Ok found ->
  shape_0 sh <> 0 ->
  _handle_exact_batches found (len found) (shape_0 sh) exact_batches =
    Ok (imgs, n) ->
  exists self,
    __init__ fs r input_path sh exact_batches shuffle_files = Ok self /\
    images self = imgs /\ num_images self = n.
Proof.
  intros Hf Hb Hex. unfold __init__. rewrite Hf; simpl.
  pose proof (find_images_nonempty _ _ _ _ _ Hf).
  destruct (Z.ltb_spec (len found) 1); [lia|].
  rewrite Hex; simpl.
  destruct (_handle_tensor_shape sh) as [w h].
  unfold py_int_truediv.
  destruct (Z.eqb_spec (shape_0 sh) 0); [contradiction|]. simpl.
  eexists; repeat split.
Qed.


(** C10: a shape whose first component is 0 makes construction end in
    ZeroDivisionError for every input that resolves to at least one image,
    whichever the flags; with a batch size of at least 1 construction never
    ends in ZeroDivisionError. *)
Theorem init_division_by_zero fs r input_path sh exact_batches shuffle_files :
  (shape_0 sh = 0 ->
   forall found, _find_images fs r input_path shuffle_files = Ok found ->
   __init__ fs r input_path sh exact_batches shuffle_files =
     Err ZeroDivisionError) /\
  (1 <= shape_0 sh ->
   __init__ fs r input_path sh exact_batches shuffle_files <>
     Err ZeroDivisionError).
Proof.
  split.
  - intros H0 found Hf. unfold __init__. rewrite Hf; simpl.
    pose proof (find_images_nonempty _ _ _ _ _ Hf).
    destruct (Z.ltb_spec (len found) 1); [lia|].
    rewrite H0. destruct exact_batches; simpl; [reflexivity|].
    destruct (_handle_tensor_shape sh). reflexivity.
  - intros Hb. unfold __init__.
    destruct (_find_images fs r input_path shuffle_files) as [found|e] eqn:Hf;
      simpl.
    + destruct (Z.ltb_spec (len found) 1); [discriminate|].
      destruct exact_batches.
      * rewrite handle_exact_batches_true by assumption.
        destruct (len found <? shape_0 sh); simpl; [discriminate|].
        destruct (_handle_tensor_shape sh). unfold py_int_truediv.
        destruct (Z.eqb_spec (shape_0 sh) 0); [lia|]. discriminate.
      * simpl. destruct (_handle_tensor_shape sh). unfold py_int_truediv.
        destruct (Z.eqb_spec (shape_0 sh) 0); [lia|]. discriminate.
    + unfold _find_images in Hf.
      destruct (negb (fs_exists fs input_path)).
      * inversion Hf. discriminate.
      * destruct (if shuffle_files then _ else _); inversion Hf. discriminate.
Qed.

(** ** Batch partitioning *)

Lemma ceil_div_spec (a b : Z) :
  0 < b -> (ceil_div a b - 1) * b < a <= ceil_div a b * b.
Proof.
  intros Hb. unfold ceil_div.
  pose proof (Z.mul_div_le (- a) b Hb).
  pose proof (Z.mul_succ_div_gt (- a) b Hb).
  lia.
Qed.

Lemma quot_ceil (n b : Z) :
  1 <= n -> 1 <= b -> 1 + Z.quot (n - 1) b = ceil_div n b.
Proof.
  intros Hn Hb. rewrite Z.quot_div_nonneg by lia.
  pose proof (ceil_div_spec n b ltac:(lia)).
  pose proof (Z.mul_div_le (n - 1) b ltac:(lia)).
  pose proof (Z.mul_succ_div_gt (n - 1) b ltac:(lia)).
  nia.
Qed.

Lemma nth_runs {A : Type} (l : list A) (b k i : nat) :
  (i < k)%nat ->
  nth i (map (fun i => firstn b (skipn (i * b) l)) (seq 0 k)) [] =
  firstn b (skipn (i * b) l).
Proof.
  intros Hi.
  rewrite (nth_indep _ [] (firstn b (skipn (0 * b) l)))
    by (rewrite length_map, length_seq; exact Hi).
  rewrite (map_nth (fun i => firstn b (skipn (i * b) l)) (seq 0 k) 0%nat i).
  now rewrite seq_nth.
Qed.

(** Construction also succeeds with a negative first component, where the
    batch count is not a ceiling; the partition property is about batch
    sizes of at least 1. *)
Example negative_batch_size_constructs :
  exists self,
    __init__ Demo.fs Demo.reversing Demo.data (-2, 3, 2, 2) false false =
      Ok self /\
    num_batches self = -1 /\ batches self = [].
Proof. eexists. repeat split. Qed.

(** C2: a constructed batcher with a batch size of at least 1 has
    ceil(num_images / batch_size) batches; batch i is the run of batch_size
    consecutive images starting at i * batch_size, so the batches are
    contiguous, disjoint and in order; every batch but the last has
    batch_size members, the last has num_images mod batch_size (batch_size
    when that is 0); and the batches put end to end are the image list. *)
Theorem batches_partition fs r input_path sh exact_batches shuffle_files self :
  __init__ fs r input_path sh exact_batches shuffle_files = Ok self ->
  1 <= batch_size self ->
  let n := num_images self in
  let b := batch_size self in
  (1 <= n /\ n = len (images self) /\ b = shape_0 sh) /\
  num_batches self = ceil_div n b /\
  len (batches self) = num_batches self /\
  (forall i : nat, Z.of_nat i < num_batches self ->
     nth i (batches self) [] =
     firstn (Z.to_nat b) (skipn (i * Z.to_nat b) (images self))) /\
  (forall i : nat, Z.of_nat i < num_batches self - 1 ->
     len (nth i (batches self) []) = b) /\
  len (nth (Z.to_nat (num_batches self - 1)) (batches self) []) =
    (if n mod b =? 0 then b else n mod b) /\
  List.concat (batches self) = images self.
Proof.
  intros Hinit Hb. cbv zeta.
  destruct (init_ok_inv _ _ _ _ _ _ _ Hinit)
    as (found & Hf & Hne & Hsh & Hbs & Hb0 & Hex & Hts & Hnb & Hbat).
  assert (Hn : 1 <= num_images self /\ num_images self = len (images self)).
  { destruct exact_batches.
    - rewrite <- Hbs in Hex.
      rewrite handle_exact_batches_true in Hex by assumption.
      destruct (Z.ltb_spec (len found) (batch_size self)); [discriminate|].
      inversion Hex as [[Himg Hnum]].
      assert (1 <= len found / batch_size self)
        by (apply Z.div_le_lower_bound; lia).
      assert (batch_size self * (len found / batch_size self) <= len found)
        by (apply Z.mul_div_le; lia).
      split; [nia|]. unfold len. rewrite length_firstn. unfold len in *. lia.
    - inversion Hex; subst. split; [lia | congruence]. }
  destruct Hn as [Hn1 Hnl].
  rewrite quot_ceil in Hnb by assumption.
  pose proof (ceil_div_spec (num_images self) (batch_size self) ltac:(lia))
    as Hc.
  rewrite <- Hnb in Hc.
  assert (Hnb1 : 1 <= num_batches self) by nia.
  rewrite batches_as_runs in Hbat by assumption.
  set (bn := Z.to_nat (batch_size self)) in *.
  set (k := Z.to_nat (num_batches self)) in *.
  assert (Hbn : Z.of_nat bn = batch_size self) by (unfold bn; lia).
  assert (Hk : Z.of_nat k = num_batches self) by (unfold k; lia).
  assert (Hlen : Z.of_nat (List.length (images self)) = num_images self)
    by (unfold len in Hnl; lia).
  assert (Hrun : forall i : nat, Z.of_nat i < num_batches self ->
     nth i (batches self) [] = firstn bn (skipn (i * bn) (images self))).
  { intros i Hi. rewrite Hbat. apply nth_runs. lia. }
  split; [repeat split; auto|].
  split; [exact Hnb|].
  split; [unfold len; rewrite Hbat, length_map, length_seq; exact Hk|].
  split; [exact Hrun|].
  split; [|split].
  - intros i Hi. rewrite Hrun by lia. unfold len.
    rewrite length_firstn, length_skipn. nia.
  - rewrite Hrun by lia. unfold len.
    rewrite length_firstn, length_skipn.
    set (q := num_batches self - 1) in *.
    assert (Hq : 0 <= q) by (unfold q; lia).
    assert (Hqn : Z.of_nat (Z.to_nat q) = q) by lia.
    destruct (Z.eqb_spec (num_images self mod batch_size self) 0) as [E|E].
    + apply Z.mod_divide in E; [|lia]. destruct E as [m Em].
      assert (m = q + 1) by nia. nia.
    + pose proof (Z.mod_pos_bound (num_images self) (batch_size self)
                    ltac:(lia)) as Hm.
      pose proof (Z.div_mod (num_images self) (batch_size self) ltac:(lia))
        as Hdm.
      assert (num_images self / batch_size self = q) by nia.
      nia.
  - rewrite Hbat, concat_runs. apply firstn_all2. nia.
Qed.

(** ** The order on paths *)

Lemma ascii_compare_refl (a : ascii) : Ascii.compare a a = Eq.
Proof. unfold Ascii.compare. apply N.compare_refl. Qed.

Lemma ascii_compare_lt_trans (a b c : ascii) :
  Ascii.compare a b = Lt -> Ascii.compare b c = Lt -> Ascii.compare a c = Lt.
Proof.
  unfold Ascii.compare. rewrite !N.compare_lt_iff. apply N.lt_trans.
Qed.

Lemma string_compare_refl (s : string) : String.compare s s = Eq.
Proof.
  induction s as [|a s IH]; simpl; auto.
  now rewrite ascii_compare_refl.
Qed.

Lemma string_compare_lt_trans (s t u : string) :
  String.compare s t = Lt -> String.compare t u = Lt -> String.compare s u = Lt.
Proof.
  revert t u. induction s as [|a s IH]; intros [|b t] [|c u]; simpl;
    try discriminate; auto.
  destruct (Ascii.compare a b) eqn:Eab; try discriminate;
    destruct (Ascii.compare b c) eqn:Ebc; try discriminate; intros H1 H2.
  - apply Ascii.compare_eq_iff in Eab, Ebc. subst.
    rewrite ascii_compare_refl. eauto.
  - apply Ascii.compare_eq_iff in Eab. subst. now rewrite Ebc.
  - apply Ascii.compare_eq_iff in Ebc. subst. now rewrite Eab.
  - now rewrite (ascii_compare_lt_trans a b c).
Qed.

Lemma path_compare_refl (p : path) : path_compare p p = Eq.
Proof.
  induction p as [|a p IH]; simpl; auto.
  now rewrite string_compare_refl.
Qed.

Lemma path_compare_eq (p q : path) : path_compare p q = Eq -> p = q.
Proof.
  revert q. induction p as [|a p IH]; intros [|b q]; simpl;
    try discriminate; auto.
  destruct (String.compare a b) eqn:E; try discriminate.
  apply String.compare_eq_iff in E. intros H. f_equal; auto.
Qed.

Lemma path_compare_lt_trans (p q r : path) :
  path_compare p q = Lt -> path_compare q r = Lt -> path_compare p r = Lt.
Proof.
  revert q r. induction p as [|a p IH]; intros [|b q] [|c r]; simpl;
    try discriminate; auto.
  destruct (String.compare a b) eqn:Eab; try discriminate;
    destruct (String.compare b c) eqn:Ebc; try discriminate; intros H1 H2.
  - apply String.compare_eq_iff in Eab, Ebc. subst.
    rewrite string_compare_refl. eauto.
  - apply String.compare_eq_iff in Eab. subst. now rewrite Ebc.
  - apply String.compare_eq_iff in Ebc. subst. now rewrite Eab.
  - now rewrite (string_compare_lt_trans a b c).
Qed.

Lemma path_le_trans (p q r : path) : path_le p q -> path_le q r -> path_le p r.
Proof.
  unfold path_le, is_true, PathOrder.leb.
  destruct (path_compare p q) eqn:E1; try discriminate;
    destruct (path_compare q r) eqn:E2; try discriminate; intros _ _.
  - apply path_compare_eq in E1, E2. subst. now rewrite path_compare_refl.
  - apply path_compare_eq in E1. subst. now rewrite E2.
  - apply path_compare_eq in E2. subst. now rewrite E1.
  - now rewrite (path_compare_lt_trans p q r).
Qed.

Lemma path_le_antisym (p q : path) : path_le p q -> path_le q p -> p = q.
Proof.
  unfold path_le, is_true, PathOrder.leb.
  rewrite (PathOrder.path_compare_antisym q p).
  destruct (path_compare p q) eqn:E; simpl; try discriminate.
  intros _ _. now apply path_compare_eq.
Qed.

(** Children of one directory are ordered by their names. *)
Lemma path_compare_siblings (p : path) (a b : string) :
  path_compare (p ++ [a]) (p ++ [b]) = String.compare a b.
Proof.
  induction p as [|c p IH]; simpl.
  - destruct (String.compare a b); reflexivity.
  - now rewrite string_compare_refl.
Qed.

Lemma sort_strongly_sorted (l : list path) :
  StronglySorted path_le (PathSort.sort l).
Proof.
  apply Sorted_StronglySorted.
  - intros p q r. apply path_le_trans.
  - apply PathSort.Sorted_sort.
Qed.

(** ** Suffixes *)

Lemma suffix_child (p : path) (name : string) :
  suffix (p ++ [name]) = name_suffix name.
Proof. unfold suffix. now rewrite last_last. Qed.

Example suffix_examples :
  name_suffix "photo.JPG" = ".JPG"%string /\
  name_suffix "archive.tar.png" = ".png"%string /\
  name_suffix ".bmp" = ""%string /\
  name_suffix "trailing." = ""%string /\
  name_suffix "noext" = ""%string /\
  lower ".JpEg" = ".jpeg"%string.
Proof. repeat split. Qed.

(** ** Discovery of images *)

Lemma is_image_child fs (p : path) (name : string) :
  is_image fs (p ++ [name]) = true <->
  fs_is_file fs (p ++ [name]) = true /\
  In (lower (name_suffix name)) extensions.
Proof.
  unfold is_image. rewrite andb_true_iff, suffix_child, existsb_exists.
  split; intros [Hf Hs]; split; auto.
  - destruct Hs as (ext & Hin & Heq).
    apply String.eqb_eq in Heq. now subst.
  - exists (lower (name_suffix name)). split; auto. apply String.eqb_refl.
Qed.

Lemma discover_dir_In fs (p q : path) :
  fs_is_dir fs p = true ->
  (In q (discover fs p) <->
   exists name, In name (fs_listdir fs p) /\ q = p ++ [name] /\
                fs_is_file fs q = true /\
                In (lower (name_suffix name)) extensions).
Proof.
  intros Hd. unfold discover. rewrite Hd.
  split.
  - intros Hin.
    apply (Permutation_in _ (Permutation_sym (PathSort.Permuted_sort _))) in Hin.
    apply filter_In in Hin. destruct Hin as [Hin Him].
    unfold iterdir in Hin. apply in_map_iff in Hin.
    destruct Hin as (name & Hq & Hn). subst q.
    apply is_image_child in Him. exists name. tauto.
  - intros (name & Hn & Hq & Hf & Hs). subst q.
    apply (Permutation_in _ (PathSort.Permuted_sort _)).
    apply filter_In. split.
    + unfold iterdir.
      apply (in_map (fun name : string => p ++ [name])). exact Hn.
    + apply is_image_child. tauto.
Qed.

(** C6: discovery raises NotFoundError when the root does not exist; for
    an existing root that is not a directory (a single file) the resolved
    list is the root alone, whatever its extension; for a directory it is
    the direct entries that are regular files with a suffix that, in lower
    case, is one of .jpg, .jpeg, .png, .bmp, each as often as the directory
    lists it, in ascending order of path; and a directory without such an
    entry raises EmptyInputError.  (With shuffle_files the list is then
    permuted by the random source.) *)
Theorem find_images_discovery fs r input_path shuffle_files :
  (fs_exists fs input_path = false ->
   _find_images fs r input_path shuffle_files = Err NotFoundError) /\
  (fs_exists fs input_path = true -> fs_is_dir fs input_path = false ->
   _find_images fs r input_path shuffle_files = Ok [input_path]) /\
  (fs_exists fs input_path = true -> fs_is_dir fs input_path = true ->
   let found := discover fs input_path in
   (forall q, In q found <->
      exists name, In name (fs_listdir fs input_path) /\
                   q = input_path ++ [name] /\
                   fs_is_file fs q = true /\
                   In (lower (name_suffix name)) extensions) /\
   Permutation (filter (is_image fs) (iterdir fs input_path)) found /\
   StronglySorted path_le found /\
   (found = [] ->
    _find_images fs r input_path shuffle_files = Err EmptyInputError) /\
   (found <> [] -> _find_images fs r input_path false = Ok found) /\
   (found <> [] ->
    exists l, _find_images fs r input_path true = Ok l /\
              Permutation found l)).
Proof.
  unfold _find_images. split; [|split].
  - intros He. now rewrite He.
  - intros He Hd. rewrite He; simpl. unfold discover. rewrite Hd.
    destruct shuffle_files; [|reflexivity].
    pose proof (shuffle_perm r [input_path]) as Hp.
    apply Permutation_length_1_inv in Hp. now rewrite Hp.
  - intros He Hd. cbv zeta. rewrite He; cbn [negb].
    split; [intros q; now apply discover_dir_In|].
    split; [unfold discover; rewrite Hd; apply PathSort.Permuted_sort|].
    split; [unfold discover; rewrite Hd; apply sort_strongly_sorted|].
    split; [|split].
    + intros Hnil. rewrite Hnil.
      destruct shuffle_files; [|reflexivity].
      pose proof (shuffle_perm r []) as Hp.
      apply Permutation_nil in Hp. now rewrite Hp.
    + intros Hne. destruct (discover fs input_path); [contradiction|reflexivity].
    + intros Hne. exists (shuffle r (discover fs input_path)).
      split; [|apply shuffle_perm].
      destruct (shuffle r (discover fs input_path)) eqn:E; [|reflexivity].
      pose proof (shuffle_perm r (discover fs input_path)) as Hp.
      rewrite E in Hp. apply Permutation_sym, Permutation_nil in Hp.
      contradiction.
Qed.

(** C6 on a missing root, a single file, an empty directory and the
    directory of five images. *)
Lemma find_images_discovery_witness :
  _find_images Demo.fs Demo.reversing ["missing"%string] false =
    Err NotFoundError /\
  _find_images Demo.fs Demo.reversing ["single.txt"%string] true =
    Ok [["single.txt"%string]] /\
  _find_images Demo.fs Demo.reversing ["empty"%string] false =
    Err EmptyInputError /\
  _find_images Demo.fs Demo.reversing Demo.data false = Ok Demo.sorted_images.
Proof.
  split; [|split; [|split]].
  - apply (proj1 (find_images_discovery Demo.fs Demo.reversing
                    ["missing"%string] false)).
    reflexivity.
  - apply (proj1 (proj2 (find_images_discovery Demo.fs Demo.reversing
                           ["single.txt"%string] true))); reflexivity.
  - apply (proj2 (proj2 (find_images_discovery Demo.fs Demo.reversing
                           ["empty"%string] false))); reflexivity.
  - change Demo.sorted_images with (discover Demo.fs Demo.data).
    apply (proj2 (proj2 (find_images_discovery Demo.fs Demo.reversing
                           Demo.data false))); try reflexivity.
    discriminate.
Defined.

(** ** Arrays *)

Section ArrayFacts.

Variable D : dtype.

Lemma skipn_nth_cons {A : Type} (l : list A) (off : nat) (d : A) :
  (off < List.length l)%nat ->
  skipn off l = nth off l d :: skipn (S off) l.
Proof.
  revert off. induction l as [|a l IH]; intros [|off] H; simpl in *;
    try lia; auto.
  apply IH. lia.
Qed.

Lemma map_nth_run {A : Type} (l : list A) (d : A) (off c : nat) :
  (off + c <= List.length l)%nat ->
  map (fun k => nth (off + k) l d) (seq 0 c) = firstn c (skipn off l).
Proof.
  revert off. induction c as [|c IH]; intros off H.
  - reflexivity.
  - rewrite <- cons_seq, <- seq_shift, map_cons, map_map.
    rewrite (skipn_nth_cons l off d) by lia.
    rewrite Nat.add_0_r, firstn_cons. f_equal.
    rewrite <- IH by lia. apply map_ext. intros k. f_equal. lia.
Qed.

Lemma flat_map_runs {A : Type} (l : list A) (off b k : nat) :
  flat_map (fun i => firstn b (skipn (off + i * b) l)) (seq 0 k) =
  firstn (k * b) (skipn off l).
Proof.
  rewrite flat_map_concat_map, <- concat_runs. f_equal.
  apply map_ext. intros i. now rewrite skipn_skipn, Nat.add_comm.
Qed.

Lemma bidx_id (d i : nat) : (i < d)%nat -> bidx d i = i.
Proof.
  intros H. unfold bidx. destruct (Nat.eqb_spec d 1); [lia | reflexivity].
Qed.

Lemma broadcast_to_length (im : ndarray3 D) (d1 d2 d3 : nat) :
  List.length (broadcast_to im d1 d2 d3) = (d1 * d2 * d3)%nat.
Proof.
  unfold broadcast_to. destruct (dims3 im) as [[a b] c].
  induction d1 as [|d1 IH]; [reflexivity|].
  rewrite seq_S, flat_map_app, length_app, IH. simpl.
  rewrite app_nil_r.
  assert (H : forall n, List.length
            (flat_map (fun j => map (fun k =>
               nth (bidx a d1 * b * c + bidx b j * c + bidx c k)
                   (data3 im) (zero D)) (seq 0 d3)) (seq 0 n)) = (n * d3)%nat).
  { induction n as [|n IHn]; [reflexivity|].
    rewrite seq_S, flat_map_app, length_app, IHn. simpl.
    rewrite app_nil_r, length_map, length_seq. lia. }
  rewrite H. lia.
Qed.

(** An array of the extents of the slot is copied as it is. *)
Lemma broadcast_to_same (im : ndarray3 D) (d1 d2 d3 : nat) :
  dims3 im = (d1, d2, d3) ->
  List.length (data3 im) = (d1 * d2 * d3)%nat ->
  broadcast_to im d1 d2 d3 = data3 im.
Proof.
  intros Hd Hl. unfold broadcast_to. rewrite Hd.
  transitivity
    (flat_map (fun i => firstn (d2 * d3) (skipn (0 + i * (d2 * d3)) (data3 im)))
              (seq 0 d1)).
  - rewrite !flat_map_concat_map. f_equal.
    apply map_ext_in. intros i Hi. apply in_seq in Hi.
    rewrite <- (flat_map_runs (data3 im) (0 + i * (d2 * d3)) d3 d2).
    rewrite !flat_map_concat_map. f_equal.
    apply map_ext_in. intros j Hj. apply in_seq in Hj.
    rewrite <- (map_nth_run (data3 im) (zero D)).
    2:{ rewrite Hl. simpl in *.
        assert (i * (d2 * d3) + (d2 * d3) <= d1 * (d2 * d3))%nat by nia.
        assert (j * d3 + d3 <= d2 * d3)%nat by nia.
        lia. }
    apply map_ext_in. intros k Hk. apply in_seq in Hk.
    rewrite !bidx_id by lia. f_equal. lia.
  - rewrite flat_map_runs. simpl. apply firstn_all2. lia.
Qed.

Lemma np_zeros_inv (sh : shape4) (t : ndarray4 D) :
  np_zeros D sh = Ok t ->
  (0 <= shape_0 sh /\ 0 <= shape_1 sh /\ 0 <= shape_2 sh /\ 0 <= shape_3 sh) /\
  dims4 t = (Z.to_nat (shape_0 sh), Z.to_nat (shape_1 sh),
             Z.to_nat (shape_2 sh), Z.to_nat (shape_3 sh)) /\
  data4 t = repeat (zero D) (Z.to_nat (shape_0 sh) * slot_size t).
Proof.
  destruct sh as [[[n d1] d2] d3]. unfold np_zeros. simpl.
  destruct (Z.ltb_spec n 0); simpl; [discriminate|].
  destruct (Z.ltb_spec d1 0); simpl; [discriminate|].
  destruct (Z.ltb_spec d2 0); simpl; [discriminate|].
  destruct (Z.ltb_spec d3 0); simpl; [discriminate|].
  intros Heq; inversion Heq; subst; clear Heq. unfold slot_size; simpl.
  repeat split; auto. f_equal. lia.
Qed.


(** Writing one run of [s] elements into a list of such runs. *)
Lemma run_write_length {A : Type} (data new : list A) (s n idx : nat) :
  List.length data = (n * s)%nat -> List.length new = s -> (idx < n)%nat ->
  List.length (firstn (idx * s) data ++ new ++ skipn (S idx * s) data) =
  (n * s)%nat.
Proof.
  intros Hd Hn Hi. rewrite !length_app, length_firstn, length_skipn. nia.
Qed.

Lemma run_write_same {A : Type} (data new : list A) (s n idx : nat) :
  List.length data = (n * s)%nat -> List.length new = s -> (idx < n)%nat ->
  firstn s (skipn (idx * s)
              (firstn (idx * s) data ++ new ++ skipn (S idx * s) data)) = new.
Proof.
  intros Hd Hn Hi.
  assert (Hf : List.length (firstn (idx * s) data) = (idx * s)%nat)
    by (rewrite length_firstn; nia).
  rewrite skipn_app, Hf, Nat.sub_diag, skipn_all2 by lia. simpl.
  rewrite firstn_app, Hn, Nat.sub_diag. simpl.
  rewrite app_nil_r. apply firstn_all2. lia.
Qed.

Lemma run_write_other {A : Type} (data new : list A) (s n idx j : nat) :
  List.length data = (n * s)%nat -> List.length new = s -> (idx < n)%nat ->
  j <> idx ->
  firstn s (skipn (j * s)
              (firstn (idx * s) data ++ new ++ skipn (S idx * s) data)) =
  firstn s (skipn (j * s) data).
Proof.
  intros Hd Hn Hi Hj.
  assert (Hf : List.length (firstn (idx * s) data) = (idx * s)%nat)
    by (rewrite length_firstn; nia).
  destruct (Nat.lt_ge_cases j idx) as [Hlt|Hge].
  - rewrite skipn_app, Hf.
    replace (j * s - idx * s)%nat with 0%nat by nia. simpl.
    rewrite firstn_app, length_skipn, Hf.
    replace (s - (idx * s - j * s))%nat with 0%nat by nia.
    simpl. rewrite app_nil_r, skipn_firstn_comm, firstn_firstn.
    f_equal. nia.
  - assert (idx < j)%nat by lia.
    rewrite skipn_app, Hf, skipn_all2 by nia. simpl.
    rewrite skipn_app, Hn, skipn_all2 by nia. simpl.
    rewrite skipn_skipn. do 2 f_equal. nia.
Qed.

Lemma setitem_inv (t t' : ndarray4 D) (idx : nat) (im : ndarray3 D) :
  setitem t idx im = Ok t' ->
  let '(n, d1, d2, d3) := dims4 t in
  (idx < n)%nat /\ dims4 t' = dims4 t /\
  data4 t' = firstn (idx * slot_size t) (data4 t) ++
             broadcast_to im d1 d2 d3 ++
             skipn (S idx * slot_size t) (data4 t).
Proof.
  unfold setitem. destruct (dims4 t) as [[[n d1] d2] d3] eqn:Hd.
  destruct (dims3 im) as [[a b] c].
  destruct (Nat.leb_spec n idx); [discriminate|].
  destruct (broadcastable a d1 && broadcastable b d2 && broadcastable c d3);
    [|discriminate].
  intros Heq; inversion Heq; subst; simpl. auto.
Qed.


End ArrayFacts.

(** ** Per-image preprocessing *)

Section PreprocessFacts.

Variable D : dtype.
Variable T : Type.
Variable env : collaborators T.

Lemma channel_const {A : Type} (c : nat) (a : A) : channel c (a, a, a) = a.
Proof. destruct c as [|[|c]]; reflexivity. Qed.

Lemma transpose_201_length (im : hwc_image D) :
  List.length (data3 (transpose_201 im)) =
  (3 * List.length (hwc_pixels im))%nat.
Proof. unfold transpose_201; simpl. rewrite !length_app, !length_map. lia. Qed.

Lemma transpose_201_nth (im : hwc_image D) (c i : nat) :
  (c < 3)%nat -> (i < List.length (hwc_pixels im))%nat ->
  nth (c * List.length (hwc_pixels im) + i) (data3 (transpose_201 im)) (zero D) =
  channel c (nth i (hwc_pixels im) (zero D, zero D, zero D)).
Proof.
  intros Hc Hi. unfold transpose_201; simpl.
  set (px := hwc_pixels im) in *.
  set (d := (zero D, zero D, zero D)).
  assert (Hm : forall k, nth i (map (channel k) px) (zero D) =
                         channel k (nth i px d)).
  { intros k. rewrite <- (channel_const k (zero D)) at 1.
    apply (map_nth (channel k)). }
  destruct c as [|[|[|c]]]; try lia.
  - rewrite app_nth1 by (rewrite length_map; lia). apply Hm.
  - rewrite app_nth2 by (rewrite length_map; lia).
    rewrite length_map.
    replace (1 * List.length px + i - List.length px)%nat with i by lia.
    rewrite app_nth1 by (rewrite length_map; lia). apply Hm.
  - rewrite app_nth2 by (rewrite length_map; lia).
    rewrite length_map.
    rewrite app_nth2 by (rewrite length_map; lia).
    rewrite length_map.
    replace (2 * List.length px + i - List.length px - List.length px)%nat
      with i by lia.
    apply Hm.
Qed.

Lemma normalized_range (v : byte) :
  le D (zero D) (div255 D (astype D v)) /\
  le D (div255 D (astype D v)) (one D).
Proof.
  rewrite <- (div255_min D), <- (div255_max D).
  split; apply div255_mono, astype_mono.
  - destruct v; vm_compute; discriminate.
  - apply Byte.to_N_bounded.
Qed.

Lemma preprocess_unreadable (self : ImageBatcher) (p : path) :
  imread env p = None ->
  _preprocess_image D T env self p = ([Imread p], Err DecodeError).
Proof. intros H. unfold _preprocess_image, decode. now rewrite H. Qed.

Lemma preprocess_readable (self : ImageBatcher) (p : path) (raw : raw_image) :
  imread env p = Some raw ->
  _preprocess_image D T env self p =
  ([Imread p; Letterbox raw (height self, width self)],
   Ok (transpose_201
         (normalize D
            (cvtColor_BGR2RGB
               (fst (letterbox env raw (height self, width self))))),
       snd (letterbox env raw (height self, width self)))).
Proof.
  intros H. unfold _preprocess_image, decode. rewrite H.
  now destruct (letterbox env raw (height self, width self)).
Qed.


End PreprocessFacts.

(** C7: preprocessing of a readable image decodes it, letterboxes the
    decoded image to (height, width) as inferred from the shape, swaps the
    letterboxed image from B, G, R to R, G, B and divides every intensity by
    255 in the element type, which lands in [0, 1], and reorders the axes
    from (height, width, channel) to (channel, height, width): the result
    is a (3, rows, cols) array whatever layout the shape declares. *)
Theorem preprocess_image_pipeline (D : dtype) (T : Type)
    (env : collaborators T) fs r input_path sh exact_batches shuffle_files
    (self : ImageBatcher) (p : path) (raw lb : raw_image) (rec : T) :
  __init__ fs r input_path sh exact_batches shuffle_files = Ok self ->
  imread env p = Some raw ->
  letterbox env raw (height self, width self) = (lb, rec) ->
  raw_wf lb ->
  (width self, height self) = _handle_tensor_shape sh /\
  exists im,
    _preprocess_image D T env self p =
      ([Imread p; Letterbox raw (height self, width self)], Ok (im, rec)) /\
    dims3 im = (3%nat, rows lb, cols lb) /\
    List.length (data3 im) = (3 * rows lb * cols lb)%nat /\
    (forall c y x : nat, (c < 3)%nat -> (y < rows lb)%nat -> (x < cols lb)%nat ->
       nth (c * (rows lb * cols lb) + y * cols lb + x) (data3 im) (zero D) =
       div255 D (astype D
         (channel (2 - c) (nth (y * cols lb + x) (pixels lb) (x00, x00, x00))))) /\
    Forall (fun v => le D (zero D) v /\ le D v (one D)) (data3 im).
Proof.
  intros Hinit Hread Hlb Hwf.
  destruct (init_ok_inv _ _ _ _ _ _ _ Hinit)
    as (found & _ & _ & _ & _ & _ & _ & Hts & _).
  split; [exact Hts|].
  rewrite (preprocess_readable D T env self p raw Hread), Hlb. simpl fst; simpl snd.
  set (nz := normalize D (cvtColor_BGR2RGB lb)).
  set (f := fun px : pixel =>
              let '(b, g, r') := px in
              (div255 D (astype D r'), div255 D (astype D g),
               div255 D (astype D b))).
  assert (Hpx : hwc_pixels nz = map f (pixels lb)).
  { unfold nz, normalize, cvtColor_BGR2RGB; simpl. rewrite map_map.
    apply map_ext. intros [[b g] r']. reflexivity. }
  assert (Hlen : List.length (hwc_pixels nz) = (rows lb * cols lb)%nat).
  { rewrite Hpx, length_map. exact Hwf. }
  exists (transpose_201 nz). split; [reflexivity|].
  split; [reflexivity|].
  split; [rewrite transpose_201_length, Hlen; lia|].
  split.
  - intros c y x Hc Hy Hx.
    assert (Hi : (y * cols lb + x < rows lb * cols lb)%nat) by nia.
    assert (Hi2 : (y * cols lb + x < List.length (pixels lb))%nat)
      by (unfold raw_wf in Hwf; rewrite Hwf; exact Hi).
    rewrite <- Hlen, <- Nat.add_assoc.
    rewrite transpose_201_nth by (rewrite ?Hlen; assumption).
    rewrite Hpx.
    rewrite (nth_indep _ (zero D, zero D, zero D) (f (x00, x00, x00)))
      by (rewrite length_map; exact Hi2).
    rewrite (map_nth f).
    destruct (nth (y * cols lb + x) (pixels lb) (x00, x00, x00)) as [[b g] r'].
    destruct c as [|[|[|c]]]; try lia; reflexivity.
  - unfold transpose_201; cbn [data3]. rewrite Hpx, !map_map.
    rewrite !Forall_app, !Forall_map.
    repeat split; apply Forall_forall; intros [[b g] r'] _; simpl;
      apply normalized_range.
Qed.

(** ** The executor *)

Section ExecutorFacts.

Context {X Y : Type}.
Variable f : X -> list call * Y.

Lemma nth_error_set_result {W : Type} (i j : nat) (z : W) (fs : futures W) :
  nth_error (set_result i z fs) j =
  if (j =? i)%nat && (i <? List.length fs)%nat then Some (Some z)
  else nth_error fs j.
Proof.
  unfold set_result. destruct (Nat.ltb_spec i (List.length fs)) as [Hi|Hi].
  - rewrite andb_true_r.
    assert (Hf : List.length (firstn i fs) = i) by (rewrite length_firstn; lia).
    destruct (Nat.eqb_spec j i) as [->|Hne].
    + rewrite nth_error_app2 by lia. rewrite Hf, Nat.sub_diag. reflexivity.
    + destruct (Nat.lt_ge_cases j i) as [Hlt|Hge].
      * rewrite nth_error_app1 by lia. rewrite nth_error_firstn.
        destruct (Nat.ltb_spec j i); [reflexivity | lia].
      * rewrite nth_error_app2 by lia. rewrite Hf.
        destruct (j - i)%nat as [|k] eqn:Hk; [lia|]. cbn [nth_error].
        rewrite nth_error_skipn. f_equal. lia.
  - now rewrite andb_false_r.
Qed.

Lemma set_result_length {W : Type} (i : nat) (z : W) (fs : futures W) :
  List.length (set_result i z fs) = List.length fs.
Proof.
  unfold set_result. destruct (Nat.ltb_spec i (List.length fs)); auto.
  rewrite length_app, length_firstn. cbn [List.length].
  rewrite length_skipn. lia.
Qed.

Lemma run_workers_length (items : list X) (sched : list nat) (fs : futures Y) :
  List.length (snd (run_workers f items sched fs)) = List.length fs.
Proof.
  revert fs. induction sched as [|i sched IH]; intros fs; simpl; auto.
  destruct (nth_error items i) as [x|]; auto.
  destruct (f x) as [tr y].
  specialize (IH (set_result i y fs)).
  destruct (run_workers f items sched (set_result i y fs)) as [tr' fs'].
  simpl in *. now rewrite IH, set_result_length.
Qed.

(** A future holds the outcome of its own item once its worker has
    completed, and is untouched otherwise. *)
Lemma run_workers_nth (items : list X) (sched : list nat) (fs : futures Y)
    (j : nat) :
  List.length fs = List.length items ->
  nth_error (snd (run_workers f items sched fs)) j =
  match nth_error items j with
  | Some x => if existsb (Nat.eqb j) sched then Some (Some (snd (f x)))
              else nth_error fs j
  | None => nth_error fs j
  end.
Proof.
  revert fs. induction sched as [|i sched IH]; intros fs Hlen; simpl.
  - destruct (nth_error items j); reflexivity.
  - destruct (nth_error items i) as [x|] eqn:Hi.
    + destruct (f x) as [tr y] eqn:Hfx.
      specialize (IH (set_result i y fs)).
      destruct (run_workers f items sched (set_result i y fs)) as [tr' fs'].
      simpl in *. rewrite IH by (now rewrite set_result_length).
      rewrite nth_error_set_result.
      assert (Hlt : (i < List.length fs)%nat).
      { rewrite Hlen. apply nth_error_Some. congruence. }
      destruct (Nat.ltb_spec i (List.length fs)); [|lia].
      rewrite andb_true_r.
      destruct (Nat.eqb_spec j i) as [->|Hne]; simpl.
      * rewrite Hi, Hfx. simpl. destruct (existsb (Nat.eqb i) sched); reflexivity.
      * reflexivity.
    + rewrite IH by assumption.
      destruct (Nat.eqb_spec j i) as [->|Hne]; simpl; auto.
      rewrite Hi. reflexivity.
Qed.



Lemma all_done_Some (fs : futures Y) (ys : list Y) :
  all_done fs = Some ys <-> fs = map Some ys.
Proof.
  revert ys. induction fs as [|[y|] fs IH]; intros ys; simpl.
  - split; [intros H; inversion H; reflexivity|].
    destruct ys; [reflexivity | discriminate].
  - destruct (all_done fs) as [ys'|].
    + split.
      * intros H; inversion H; subst. simpl. f_equal. now apply IH.
      * destruct ys as [|y0 ys0]; [discriminate|]. simpl.
        intros H; inversion H; subst.
        f_equal. f_equal. assert (Some ys' = Some ys0) by now apply IH.
        congruence.
    + split; [discriminate|].
      destruct ys as [|y0 ys0]; [discriminate|]. simpl.
      intros H; inversion H; subst.
      assert (None = Some ys0) by now apply IH. discriminate.
  - split; [discriminate|]. destruct ys; discriminate.
Qed.

End ExecutorFacts.

Section ExecutorMap.

Context {X Y : Type}.
Variable f : X -> list call * result Y.

(** Whatever the completion order, a result list that is obtained is the
    one of the items taken in submission order. *)
Lemma executor_map_results (items : list X) (sched : list nat)
    (r : result (list Y)) :
  snd (executor_map f items sched) = Some r ->
  r = results (map (fun x => snd (f x)) items).
Proof.
  unfold executor_map.
  pose proof (run_workers_nth f items sched
                (repeat None (List.length items))) as Hnth.
  pose proof (run_workers_length f items sched
                (repeat None (List.length items))) as Hlen.
  destruct (run_workers f items sched (repeat None (List.length items)))
    as [tr fs]. simpl in *.
  rewrite repeat_length in Hlen.
  destruct (all_done fs) as [ys|] eqn:Hd; simpl; [|discriminate].
  intros H; inversion H; subst; clear H. f_equal.
  apply all_done_Some in Hd. subst fs.
  rewrite length_map in Hlen.
  apply nth_error_ext. intros j.
  specialize (Hnth j ltac:(now rewrite repeat_length)).
  rewrite nth_error_map in Hnth. rewrite nth_error_map.
  destruct (nth_error items j) as [x|] eqn:Hx; simpl.
  - destruct (existsb (Nat.eqb j) sched).
    + destruct (nth_error ys j); simpl in Hnth; congruence.
    + assert (Hj : (j < List.length items)%nat)
        by (apply nth_error_Some; congruence).
      rewrite nth_error_repeat in Hnth by exact Hj.
      destruct (nth_error ys j); simpl in Hnth; discriminate.
  - apply nth_error_None. apply nth_error_None in Hx. lia.
Qed.

(** Once every worker has completed, the result list is obtained. *)
Lemma executor_map_complete (items : list X) (sched : list nat) :
  (forall i, (i < List.length items)%nat -> In i sched) ->
  snd (executor_map f items sched) =
  Some (results (map (fun x => snd (f x)) items)).
Proof.
  intros Hall. unfold executor_map.
  pose proof (run_workers_nth f items sched
                (repeat None (List.length items))) as Hnth.
  pose proof (run_workers_length f items sched
                (repeat None (List.length items))) as Hlen.
  destruct (run_workers f items sched (repeat None (List.length items)))
    as [tr fs]. simpl in *.
  rewrite repeat_length in Hlen.
  assert (Hfs : fs = map Some (map (fun x => snd (f x)) items)).
  { apply nth_error_ext. intros j.
    rewrite (Hnth j) by (now rewrite repeat_length).
    rewrite !nth_error_map.
    destruct (nth_error items j) as [x|] eqn:Hx; simpl.
    - assert (Hj : (j < List.length items)%nat)
        by (apply nth_error_Some; congruence).
      assert (He : existsb (Nat.eqb j) sched = true).
      { apply existsb_exists. exists j. split; [auto | apply Nat.eqb_refl]. }
      now rewrite He.
    - apply nth_error_None. rewrite repeat_length.
      apply nth_error_None in Hx. exact Hx. }
  apply (all_done_Some fs) in Hfs. now rewrite Hfs.
Qed.

Lemma permutation_covers (n : nat) (sched : list nat) :
  Permutation sched (seq 0 n) -> forall i, (i < n)%nat -> In i sched.
Proof.
  intros Hp i Hi. apply (Permutation_in _ (Permutation_sym Hp)).
  apply in_seq. lia.
Qed.

End ExecutorMap.

(** ** Assembly of a batch *)

Section AssemblyFacts.

Variable D : dtype.
Variable T : Type.
Variable env : collaborators T.

Lemma zero_run (n s j : nat) (z : elem D) :
  (j < n)%nat ->
  firstn s (skipn (j * s) (repeat z (n * s))) = repeat z s.
Proof.
  intros Hj.
  replace (n * s)%nat with (j * s + (s + (n - j - 1) * s))%nat by nia.
  rewrite !repeat_app.
  rewrite skipn_app, repeat_length, Nat.sub_diag, skipn_all2
    by (rewrite repeat_length; lia).
  simpl. rewrite firstn_app, repeat_length, Nat.sub_diag. simpl.
  rewrite app_nil_r. apply firstn_all2. rewrite repeat_length. lia.
Qed.

Lemma results_Ok {Y : Type} (l : list (result Y)) (ys : list Y) :
  results l = Ok ys <-> l = map Ok ys.
Proof.
  revert ys. induction l as [|[y|e] l IH]; intros ys; simpl.
  - split; [intros H; inversion H; reflexivity|].
    destruct ys; [reflexivity | discriminate].
  - destruct (results l) as [ys'|e'] eqn:E; simpl.
    + split.
      * intros H; inversion H; subst. simpl. f_equal. now apply IH.
      * destruct ys as [|y0 ys0]; [discriminate|]. simpl.
        intros H; inversion H; subst.
        assert (Ok ys' = Ok ys0) by now apply IH. congruence.
    + split; [discriminate|].
      destruct ys as [|y0 ys0]; [discriminate|]. simpl.
      intros H; inversion H; subst.
      assert (Err e' = Ok ys0) by now apply IH. discriminate.
  - split; [discriminate|]. destruct ys; discriminate.
Qed.

Lemma fill_inv (rs : list (ndarray3 D * T)) :
  forall (t0 t : ndarray4 D) (bs0 bs : list T) (idx n d1 d2 d3 : nat),
  fill D T t0 bs0 idx rs = Ok (t, bs) ->
  dims4 t0 = (n, d1, d2, d3) ->
  List.length (data4 t0) = (n * (d1 * d2 * d3))%nat ->
  dims4 t = (n, d1, d2, d3) /\
  List.length (data4 t) = (n * (d1 * d2 * d3))%nat /\
  bs = bs0 ++ map snd rs /\
  (forall i im sh, nth_error rs i = Some (im, sh) ->
     (idx + i < n)%nat /\ slot t (idx + i) = broadcast_to im d1 d2 d3) /\
  (forall j, (j < idx)%nat \/ (idx + List.length rs <= j)%nat ->
     slot t j = slot t0 j).
Proof.
  induction rs as [|[im sh] rs IH]; intros t0 t bs0 bs idx n d1 d2 d3 Hf Hd Hl.
  - simpl in Hf. inversion Hf; subst.
    split; [assumption|]. split; [assumption|].
    split; [now rewrite app_nil_r|].
    split; [intros i im sh Hi; destruct i; discriminate|].
    intros j _. reflexivity.
  - simpl in Hf.
    destruct (setitem t0 idx im) as [t1|e] eqn:Hs; simpl in Hf; [|discriminate].
    pose proof (setitem_inv D t0 t1 idx im Hs) as Hinv.
    rewrite Hd in Hinv. destruct Hinv as (Hidx & Hd1 & Hdata).
    assert (Hss : slot_size t0 = (d1 * d2 * d3)%nat)
      by (unfold slot_size; now rewrite Hd).
    rewrite Hss in Hdata.
    assert (Hd1' : dims4 t1 = (n, d1, d2, d3)) by congruence.
    assert (Hbl : List.length (broadcast_to im d1 d2 d3) = (d1 * d2 * d3)%nat)
      by apply broadcast_to_length.
    assert (Hl1 : List.length (data4 t1) = (n * (d1 * d2 * d3))%nat).
    { rewrite Hdata. now apply run_write_length. }
    destruct (IH t1 t (bs0 ++ [sh]) bs (S idx) n d1 d2 d3 Hf Hd1' Hl1)
      as (Hdt & Hlt & Hbs & Hin & Hout).
    assert (Hst : forall u : ndarray4 D, dims4 u = (n, d1, d2, d3) ->
              forall j, slot u j =
                        firstn (d1 * d2 * d3) (skipn (j * (d1 * d2 * d3)) (data4 u))).
    { intros u Hu j. unfold slot, slot_size. now rewrite Hu. }
    split; [assumption|]. split; [assumption|].
    split; [rewrite Hbs, <- app_assoc; reflexivity|].
    split.
    + intros i im0 sh0 Hi. destruct i as [|i].
      * simpl in Hi. inversion Hi; subst.
        split; [lia|].
        rewrite Nat.add_0_r. rewrite Hout by lia.
        rewrite (Hst t1 Hd1'), Hdata. now apply (run_write_same _ _ _ n).
      * simpl in Hi. destruct (Hin i im0 sh0 Hi) as [Hlt' Hsl].
        replace (idx + S i)%nat with (S idx + i)%nat by lia.
        split; [exact Hlt' | exact Hsl].
    + intros j Hj. simpl in Hj. rewrite Hout by lia.
      rewrite (Hst t1 Hd1'), (Hst t0 Hd), Hdata.
      apply (run_write_other _ _ _ n); auto. lia.
Qed.


(** A batch that is produced is the assembled one, whatever the order in
    which its workers completed. *)
Lemma produce_batch_assemble (self : ImageBatcher) (batch : list path)
    (sched : list nat) (r : result (batch_tuple D T)) :
  snd (produce_batch D T env self batch sched) = Some r ->
  r = assemble D T env self batch.
Proof.
  unfold produce_batch, assemble.
  destruct (np_zeros D (shape self)) as [t0|e]; simpl.
  - destruct (List.length batch =? 0)%nat; simpl.
    + intros H; inversion H; reflexivity.
    + pose proof (executor_map_results (_preprocess_image D T env self)
                    batch sched) as Hex.
      destruct (executor_map (_preprocess_image D T env self) batch sched)
        as [tr [rs|]]; simpl in *; [|discriminate].
      intros H; inversion H; subst; clear H.
      now rewrite (Hex rs eq_refl).
  - intros H; inversion H; reflexivity.
Qed.

Lemma produce_batch_complete (self : ImageBatcher) (batch : list path)
    (sched : list nat) :
  (forall i, (i < List.length batch)%nat -> In i sched) ->
  snd (produce_batch D T env self batch sched) =
  Some (assemble D T env self batch).
Proof.
  intros Hall. unfold produce_batch, assemble.
  destruct (np_zeros D (shape self)) as [t0|e]; simpl; [|reflexivity].
  destruct (List.length batch =? 0)%nat; simpl; [reflexivity|].
  pose proof (executor_map_complete (_preprocess_image D T env self)
                batch sched Hall) as Hex.
  destruct (executor_map (_preprocess_image D T env self) batch sched)
    as [tr rs]; simpl in *. now rewrite Hex.
Qed.



End AssemblyFacts.

(** ** Iteration *)

Section IterationFacts.

Variable D : dtype.
Variable T : Type.
Variable env : collaborators T.

Lemma assemble_inv (self : ImageBatcher) (batch imgs : list path)
    (t : ndarray4 D) (shapes : list T) :
  assemble D T env self batch = Ok (t, imgs, shapes) ->
  imgs = batch /\ batch <> [] /\
  exists t0 rs,
    np_zeros D (shape self) = Ok t0 /\
    map (fun p => snd (_preprocess_image D T env self p)) batch = map Ok rs /\
    fill D T t0 [] 0 rs = Ok (t, shapes).
Proof.
  unfold assemble.
  destruct (np_zeros D (shape self)) as [t0|e]; simpl; [|discriminate].
  destruct (Nat.eqb_spec (List.length batch) 0) as [E|E]; [discriminate|].
  destruct (results (map (fun p => snd (_preprocess_image D T env self p)) batch))
    as [rs|e] eqn:Hr; simpl; [|discriminate].
  destruct (fill D T t0 [] 0 rs) as [[t' bs]|e] eqn:Hf; simpl; [|discriminate].
  intros H; injection H as Ht Hi Hs. subst t' imgs bs.
  split; [reflexivity|]. split; [destruct batch; [contradiction|discriminate]|].
  exists t0, rs. split; [reflexivity|]. split; [|assumption].
  now apply results_Ok.
Qed.

Lemma iter_from_yield (self : ImageBatcher) (scheds : nat -> list nat)
    (bs : list (list path)) :
  forall k0 tr ys e, iter_from D T env self scheds k0 bs = (tr, ys, e) ->
  forall k y, nth_error ys k = Some y ->
  exists batch, nth_error bs k = Some batch /\
    snd (produce_batch D T env self batch (scheds (k0 + k)%nat)) = Some (Ok y).
Proof.
  induction bs as [|b bs IH]; intros k0 tr ys e Hit k y Hk; simpl in Hit.
  - inversion Hit; subst. destruct k; discriminate.
  - destruct (produce_batch D T env self b (scheds k0)) as [tr0 [[y0|e0]|]] eqn:Hp.
    + destruct (iter_from D T env self scheds (S k0) bs) as [[tr' ys'] e'] eqn:Hrec.
      inversion Hit; subst; clear Hit.
      destruct k as [|k]; simpl in Hk.
      * inversion Hk; subst. exists b. rewrite Nat.add_0_r, Hp. auto.
      * destruct (IH _ _ _ _ Hrec k y Hk) as (batch & Hb & Hy).
        exists batch. split; [exact Hb|].
        now replace (k0 + S k)%nat with (S k0 + k)%nat by lia.
    + inversion Hit; subst. destruct k; discriminate.
    + inversion Hit; subst. destruct k; discriminate.
Qed.



Lemma iter_from_complete (self : ImageBatcher) (scheds : nat -> list nat)
    (bs : list (list path)) :
  forall k0,
  all_complete (fun k => scheds (k0 + k)%nat) bs ->
  let '(_, ys, e) := iter_from D T env self scheds k0 bs in
  (ys, e) = assemble_all D T env self bs.
Proof.
  induction bs as [|b bs IH]; intros k0 Hall; simpl; [reflexivity|].
  assert (Hb : snd (produce_batch D T env self b (scheds k0)) =
               Some (assemble D T env self b)).
  { apply produce_batch_complete. intros i Hi.
    unfold all_complete in Hall.
    specialize (Hall 0%nat b eq_refl i Hi). cbv beta in Hall.
    now rewrite Nat.add_0_r in Hall. }
  destruct (produce_batch D T env self b (scheds k0)) as [tr0 r].
  simpl in Hb. subst r.
  destruct (assemble D T env self b) as [y|e]; [|reflexivity].
  specialize (IH (S k0)).
  destruct (iter_from D T env self scheds (S k0) bs) as [[tr' ys'] e'].
  rewrite <- IH; [reflexivity|].
  intros k batch Hk i Hi. specialize (Hall (S k) batch Hk i Hi).
  cbv beta in *. now replace (S k0 + k)%nat with (k0 + S k)%nat by lia.
Qed.

End IterationFacts.

(** ** Yielded batches *)

Section YieldFacts.

Variable D : dtype.
Variable T : Type.
Variable env : collaborators T.

(** What a yielded tuple is made of. *)
Lemma yield_inv (self : ImageBatcher) (scheds : nat -> list nat)
    (tr : list call) (ys : list (batch_tuple D T)) (e : ending)
    (k : nat) (t : ndarray4 D) (imgs : list path) (shapes : list T) :
  __iter__ D T env self scheds = (tr, ys, e) ->
  nth_error ys k = Some (t, imgs, shapes) ->
  nth_error (batches self) k = Some imgs /\
  exists t0 rs n d1 d2 d3,
    np_zeros D (shape self) = Ok t0 /\
    dims4 t0 = (n, d1, d2, d3) /\
    shape self = (Z.of_nat n, Z.of_nat d1, Z.of_nat d2, Z.of_nat d3) /\
    data4 t0 = repeat (zero D) (n * (d1 * d2 * d3)) /\
    map (fun p => snd (_preprocess_image D T env self p)) imgs = map Ok rs /\
    fill D T t0 [] 0 rs = Ok (t, shapes).
Proof.
  unfold __iter__. intros Hit Hk.
  destruct (iter_from_yield D T env self scheds _ _ _ _ _ Hit k _ Hk)
    as (batch & Hb & Hp).
  apply produce_batch_assemble in Hp. symmetry in Hp.
  destruct (assemble_inv D T env self batch imgs t shapes Hp)
    as (-> & Hne & t0 & rs & Hz & Hrs & Hf).
  split; [exact Hb|].
  destruct (np_zeros_inv D _ _ Hz) as ((H0 & H1 & H2 & H3) & Hd & Hdata).
  exists t0, rs, (Z.to_nat (shape_0 (shape self))),
    (Z.to_nat (shape_1 (shape self))), (Z.to_nat (shape_2 (shape self))),
    (Z.to_nat (shape_3 (shape self))).
  split; [exact Hz|]. split; [exact Hd|].
  split.
  { destruct (shape self) as [[[a b] c] d]. simpl in *.
    rewrite !Z2Nat.id by assumption. reflexivity. }
  split; [|split; assumption].
  rewrite Hdata. unfold slot_size. rewrite Hd. reflexivity.
Qed.

End YieldFacts.

(** C3: in every yielded tuple the image list is the batch, the transform
    records are those of its images in the same order, and slot i of the
    tensor holds the preprocessed array of image i (broadcast to the slot,
    which for an array of the extents of the slot is the array itself); and
    the tuples yielded do not depend on the order in which the workers
    complete. *)
Theorem batch_order (D : dtype) (T : Type) (env : collaborators T)
    (self : ImageBatcher) (scheds : nat -> list nat)
    (tr : list call) (ys : list (batch_tuple D T)) (e : ending) :
  __iter__ D T env self scheds = (tr, ys, e) ->
  (forall k t imgs shapes, nth_error ys k = Some (t, imgs, shapes) ->
     nth_error (batches self) k = Some imgs /\
     List.length shapes = List.length imgs /\
     forall i p, nth_error imgs i = Some p ->
       exists im sh,
         snd (_preprocess_image D T env self p) = Ok (im, sh) /\
         nth_error shapes i = Some sh /\
         forall n d1 d2 d3, dims4 t = (n, d1, d2, d3) ->
           slot t i = broadcast_to im d1 d2 d3 /\
           (dims3 im = (d1, d2, d3) ->
            List.length (data3 im) = (d1 * d2 * d3)%nat ->
            slot t i = data3 im)) /\
  (forall scheds',
     all_complete scheds (batches self) ->
     all_complete scheds' (batches self) ->
     let '(_, ys', e') := __iter__ D T env self scheds' in
     (ys', e') = (ys, e)).
Proof.
  intros Hit. split.
  - intros k t imgs shapes Hk.
    destruct (yield_inv D T env self scheds tr ys e k t imgs shapes Hit Hk)
      as (Hb & t0 & rs & n & d1 & d2 & d3 & Hz & Hd & Hsh & Hdata & Hrs & Hf).
    assert (Hl0 : List.length (data4 t0) = (n * (d1 * d2 * d3))%nat)
      by (rewrite Hdata; apply repeat_length).
    destruct (fill_inv D T rs t0 t [] shapes 0 n d1 d2 d3 Hf Hd Hl0)
      as (Hdt & Hlt & Hbs & Hin & Hout).
    simpl in Hbs.
    assert (Hlen : List.length rs = List.length imgs).
    { apply (f_equal (@List.length _)) in Hrs.
      now rewrite !length_map in Hrs. }
    split; [exact Hb|].
    split; [rewrite Hbs, length_map; exact Hlen|].
    intros i p Hp.
    assert (Hi : nth_error (map (fun p => snd (_preprocess_image D T env self p))
                               imgs) i =
                 Some (snd (_preprocess_image D T env self p)))
      by (rewrite nth_error_map, Hp; reflexivity).
    rewrite Hrs, nth_error_map in Hi.
    destruct (nth_error rs i) as [[im sh]|] eqn:Hri; simpl in Hi; [|discriminate].
    exists im, sh.
    split; [congruence|].
    split; [rewrite Hbs, nth_error_map, Hri; reflexivity|].
    intros n' d1' d2' d3' Hd'.
    rewrite Hdt in Hd'. inversion Hd'; subst n' d1' d2' d3'.
    destruct (Hin i im sh Hri) as [_ Hslot]. simpl in Hslot.
    split; [exact Hslot|].
    intros Him Hl. rewrite Hslot. now apply broadcast_to_same.
  - intros scheds' Hc Hc'. unfold __iter__ in *.
    pose proof (iter_from_complete D T env self scheds (batches self) 0 Hc) as H1.
    pose proof (iter_from_complete D T env self scheds' (batches self) 0 Hc') as H2.
    rewrite Hit in H1.
    destruct (iter_from D T env self scheds' 0 (batches self)) as [[tr' ys'] e'].
    congruence.
Qed.

(** C4: every yielded tensor has the extents of the shape descriptor, and
    each slot past the members of the batch holds zeros only. *)
Theorem batch_tensor_full_shape (D : dtype) (T : Type) (env : collaborators T)
    (self : ImageBatcher) (scheds : nat -> list nat)
    (tr : list call) (ys : list (batch_tuple D T)) (e : ending)
    (k : nat) (t : ndarray4 D) (imgs : list path) (shapes : list T) :
  __iter__ D T env self scheds = (tr, ys, e) ->
  nth_error ys k = Some (t, imgs, shapes) ->
  exists n d1 d2 d3 : nat,
    dims4 t = (n, d1, d2, d3) /\
    shape self = (Z.of_nat n, Z.of_nat d1, Z.of_nat d2, Z.of_nat d3) /\
    List.length (data4 t) = (n * (d1 * d2 * d3))%nat /\
    (List.length imgs <= n)%nat /\
    forall i : nat, (List.length imgs <= i < n)%nat ->
      slot t i = repeat (zero D) (d1 * d2 * d3).
Proof.
  intros Hit Hk.
  destruct (yield_inv D T env self scheds tr ys e k t imgs shapes Hit Hk)
    as (Hb & t0 & rs & n & d1 & d2 & d3 & Hz & Hd & Hsh & Hdata & Hrs & Hf).
  assert (Hl0 : List.length (data4 t0) = (n * (d1 * d2 * d3))%nat)
    by (rewrite Hdata; apply repeat_length).
  destruct (fill_inv D T rs t0 t [] shapes 0 n d1 d2 d3 Hf Hd Hl0)
    as (Hdt & Hlt & Hbs & Hin & Hout).
  assert (Hlen : List.length rs = List.length imgs).
  { apply (f_equal (@List.length _)) in Hrs.
    now rewrite !length_map in Hrs. }
  exists n, d1, d2, d3.
  split; [exact Hdt|]. split; [exact Hsh|]. split; [exact Hlt|].
  split.
  - destruct rs as [|r rs'] eqn:Hrs'; [simpl in Hlen; lia|].
    destruct (nth_error (r :: rs') (List.length rs')) as [[im sh]|] eqn:Hlast.
    + destruct (Hin _ im sh Hlast) as [Hlt' _]. simpl in *. lia.
    + apply nth_error_None in Hlast. simpl in Hlast. lia.
  - intros i [Hi1 Hi2]. rewrite Hout by (simpl; lia).
    unfold slot, slot_size. rewrite Hd, Hdata. now apply zero_run.
Qed.

(** ** Failures *)

Section FailureFacts.

Variable D : dtype.
Variable T : Type.
Variable env : collaborators T.





End FailureFacts.


(** ** The unresolved layout *)




(** ** Traversals that yield every batch *)

Section Progress.

Variable D : dtype.
Variable T : Type.
Variable env : collaborators T.

(** Completion orders that are permutations of the workers of each batch
    let every worker complete. *)
Lemma permutation_all_complete (scheds : nat -> list nat)
    (bs : list (list path)) :
  (forall k batch, nth_error bs k = Some batch ->
     Permutation (scheds k) (seq 0 (List.length batch))) ->
  all_complete scheds bs.
Proof.
  intros Hp k batch Hk i Hi.
  apply (permutation_covers (List.length batch)); auto.
Qed.




End Progress.

(** ** The properties on the directory of five images *)


(** C10: batch size 0 divides by zero, batch size 2 does not. *)
Lemma init_division_by_zero_witness :
  __init__ Demo.fs Demo.reversing Demo.data (0, 3, 2, 2) true false =
    Err ZeroDivisionError /\
  __init__ Demo.fs Demo.reversing Demo.data (2, 3, 2, 2) true false <>
    Err ZeroDivisionError.
Proof.
  split.
  - apply (proj1 (init_division_by_zero Demo.fs Demo.reversing Demo.data
                    (0, 3, 2, 2) true false) eq_refl Demo.sorted_images).
    reflexivity.
  - apply (proj2 (init_division_by_zero Demo.fs Demo.reversing Demo.data
                    (2, 3, 2, 2) true false)).
    simpl. lia.
Defined.

(** C2: five images in batches of two. *)
Lemma batches_partition_witness :
  num_batches (Demo.batcher (2, 3, 2, 2) false) = ceil_div 5 2 /\
  List.concat (batches (Demo.batcher (2, 3, 2, 2) false)) = Demo.sorted_images.
Proof.
  destruct (batches_partition Demo.fs Demo.reversing Demo.data (2, 3, 2, 2)
              false false (Demo.batcher (2, 3, 2, 2) false) eq_refl
              ltac:(vm_compute; discriminate))
    as (_ & Hnb & _ & _ & _ & _ & Hcat).
  split; [exact Hnb | exact Hcat].
Defined.

(** C7 over a channel-last shape: the result is channel-first. *)
Lemma preprocess_image_pipeline_witness :
  exists im,
    _preprocess_image Demo.fixed255 (Z * Z) (Demo.env [])
      (Demo.batcher (2, 2, 2, 3) false) ["data"; "a.PNG"]%string =
      ([Imread ["data"; "a.PNG"]%string;
        Letterbox (Demo.image_of ["data"; "a.PNG"]%string) (2, 2)],
       Ok (im, (1, 1))) /\
    dims3 im = (3, 2, 2)%nat.
Proof.
  destruct (preprocess_image_pipeline Demo.fixed255 (Z * Z) (Demo.env [])
              Demo.fs Demo.reversing Demo.data (2, 2, 2, 3) false false
              (Demo.batcher (2, 2, 2, 3) false) ["data"; "a.PNG"]%string
              (Demo.image_of ["data"; "a.PNG"]%string)
              (fst (Demo.fill_letterbox
                      (Demo.image_of ["data"; "a.PNG"]%string) (2, 2)))
              (1, 1)
              eq_refl eq_refl eq_refl eq_refl)
    as (_ & im & Hp & Hd & _).
  exists im. split; [exact Hp | exact Hd].
Defined.

(** C3 with the workers completing in reverse order. *)
Lemma batch_order_witness :
  nth_error (batches (Demo.batcher (2, 3, 2, 2) false)) 1 =
    Some (snd (fst (Demo.yielded (2, 3, 2, 2) false [] (Demo.reversed 2) 1))) /\
  snd (fst (Demo.yielded (2, 3, 2, 2) false [] (Demo.reversed 2) 1)) =
    [["data"; "c.jpeg"]; ["data"; "d.bmp"]]%string.
Proof.
  split; [|reflexivity].
  exact (proj1 (proj1
    (batch_order Demo.fixed255 (Z * Z) (Demo.env [])
       (Demo.batcher (2, 3, 2, 2) false) (Demo.reversed 2)
       (fst (fst (Demo.run (2, 3, 2, 2) false [] (Demo.reversed 2))))
       (snd (fst (Demo.run (2, 3, 2, 2) false [] (Demo.reversed 2))))
       (snd (Demo.run (2, 3, 2, 2) false [] (Demo.reversed 2)))
       eq_refl)
    1%nat
    (fst (fst (Demo.yielded (2, 3, 2, 2) false [] (Demo.reversed 2) 1)))
    (snd (fst (Demo.yielded (2, 3, 2, 2) false [] (Demo.reversed 2) 1)))
    (snd (Demo.yielded (2, 3, 2, 2) false [] (Demo.reversed 2) 1))
    eq_refl)).
Defined.

(** C4 on the last batch, of one image: slot 1 is zero. *)
Lemma batch_tensor_full_shape_witness :
  exists n d1 d2 d3 : nat,
    dims4 (fst (fst (Demo.yielded (2, 3, 2, 2) false [] (Demo.reversed 2) 2))) =
      (n, d1, d2, d3) /\
    (2, 3, 2, 2) = (Z.of_nat n, Z.of_nat d1, Z.of_nat d2, Z.of_nat d3) /\
    slot (fst (fst (Demo.yielded (2, 3, 2, 2) false [] (Demo.reversed 2) 2))) 1 =
      repeat 0 (d1 * d2 * d3).
Proof.
  destruct (batch_tensor_full_shape Demo.fixed255 (Z * Z) (Demo.env [])
       (Demo.batcher (2, 3, 2, 2) false) (Demo.reversed 2)
       (fst (fst (Demo.run (2, 3, 2, 2) false [] (Demo.reversed 2))))
       (snd (fst (Demo.run (2, 3, 2, 2) false [] (Demo.reversed 2))))
       (snd (Demo.run (2, 3, 2, 2) false [] (Demo.reversed 2)))
       2%nat
       (fst (fst (Demo.yielded (2, 3, 2, 2) false [] (Demo.reversed 2) 2)))
       (snd (fst (Demo.yielded (2, 3, 2, 2) false [] (Demo.reversed 2) 2)))
       (snd (Demo.yielded (2, 3, 2, 2) false [] (Demo.reversed 2) 2))
       eq_refl eq_refl)
    as (n & d1 & d2 & d3 & Hd & Hsh & _ & Hle & Hz).
  exists n, d1, d2, d3. split; [exact Hd|]. split; [exact Hsh|].
  apply Hz.
  assert (Hsh' : (2, 3, 2, 2) =
                 (Z.of_nat n, Z.of_nat d1, Z.of_nat d2, Z.of_nat d3))
    by exact Hsh.
  injection Hsh' as Hn _ _ _.
  split; [|lia]. vm_compute. lia.
Defined.



(** * Further properties of the batcher *)

(** ** Outcomes of construction *)

Lemma find_images_errors fs r input_path shuffle_files e :
  _find_images fs r input_path shuffle_files = Err e ->
  e = NotFoundError \/ e = EmptyInputError.
Proof.
  unfold _find_images.
  destruct (negb (fs_exists fs input_path)).
  - intros H; inversion H; auto.
  - destruct (if shuffle_files then _ else _); intros H; inversion H; auto.
Qed.

(** With a negative batch size the count kept by exact batching is not
    below the count found. *)
Lemma exact_count_negative (n b : Z) : 1 <= n -> b < 0 -> n <= b * (n / b).
Proof.
  intros Hn Hb.
  pose proof (Z.div_mod n b ltac:(lia)) as Hdm.
  pose proof (Z.mod_neg_bound n b Hb) as Hm.
  lia.
Qed.

Lemma handle_exact_batches_outcome (l : list path) (b : Z) :
  1 <= len l -> b <> 0 ->
  (is_ok (_handle_exact_batches l (len l) b true) = true <->
   b < 0 \/ b <= len l) /\
  (forall e, _handle_exact_batches l (len l) b true = Err e ->
             e = InsufficientInputError).
Proof.
  intros Hn Hb. unfold _handle_exact_batches, py_floordiv.
  destruct (Z.eqb_spec b 0); [contradiction|]. cbn [bind].
  destruct (Z.ltb_spec (b * (len l / b)) 1) as [Hlt|Hge]; simpl.
  - split; [|intros e H; now inversion H].
    split; [discriminate|]. intros Hc; exfalso.
    destruct (Z_lt_ge_dec b 0) as [Hneg|Hpos].
    + pose proof (exact_count_negative (len l) b Hn Hneg). lia.
    + destruct Hc as [Hneg|Hle]; [lia|].
      assert (1 <= len l / b) by (apply Z.div_le_lower_bound; lia). nia.
  - split; [|intros e H; discriminate].
    split; [|reflexivity]. intros _.
    destruct (Z_lt_ge_dec b 0); [now left | right].
    destruct (Z_lt_ge_dec (len l) b); [|lia].
    rewrite Z.div_small in Hge by lia. lia.
Qed.

(** X1: construction fails in four ways only: the root is missing, no
    image is found, the batch size is zero, or exact batching leaves no
    full batch.  The "No valid image files found" error of the constructor
    is never raised, discovery having rejected an empty list before. *)
Theorem init_errors fs r input_path sh exact_batches shuffle_files e :
  __init__ fs r input_path sh exact_batches shuffle_files = Err e ->
  (e = NotFoundError \/ e = EmptyInputError \/
   e = ZeroDivisionError \/ e = InsufficientInputError) /\
  e <> NoValidImagesError.
Proof.
  intros H.
  assert (Hcases : e = NotFoundError \/ e = EmptyInputError \/
                   e = ZeroDivisionError \/ e = InsufficientInputError).
  { unfold __init__ in H.
    destruct (_find_images fs r input_path shuffle_files) as [found|e0] eqn:Hf;
      cbn [bind] in H.
    - pose proof (find_images_nonempty _ _ _ _ _ Hf) as Hne.
      destruct (Z.ltb_spec (len found) 1); [lia|].
      destruct (Z.eq_dec (shape_0 sh) 0) as [E0|E0].
      + rewrite E0 in H. destruct exact_batches; simpl in H.
        * inversion H; auto.
        * destruct (_handle_tensor_shape sh). simpl in H. inversion H; auto.
      + destruct exact_batches.
        * destruct (_handle_exact_batches found (len found) (shape_0 sh) true)
            as [[imgs n]|e1] eqn:Hex; cbn [bind] in H.
          -- destruct (_handle_tensor_shape sh). unfold py_int_truediv in H.
             destruct (Z.eqb_spec (shape_0 sh) 0); [contradiction|].
             discriminate.
          -- inversion H; subst.
             right; right; right.
             now apply (proj2 (handle_exact_batches_outcome found (shape_0 sh)
                                 Hne E0)).
        * simpl in H. destruct (_handle_tensor_shape sh).
          unfold py_int_truediv in H.
          destruct (Z.eqb_spec (shape_0 sh) 0); [contradiction|]. discriminate.
    - inversion H; subst.
      destruct (find_images_errors _ _ _ _ _ Hf); auto. }
  split; [exact Hcases|].
  destruct Hcases as [ -> | [ -> | [ -> | -> ] ] ]; discriminate.
Qed.

Lemma init_errors_witness :
  (NotFoundError = NotFoundError \/ NotFoundError = EmptyInputError \/
   NotFoundError = ZeroDivisionError \/
   NotFoundError = InsufficientInputError) /\
  NotFoundError <> NoValidImagesError.
Proof.
  exact (init_errors Demo.fs Demo.reversing ["missing"%string] (2, 3, 2, 2)
           false false NotFoundError eq_refl).
Defined.

(** X2: construction succeeds exactly when discovery resolves a list, the
    batch size is not zero and, under exact batching, the batch size is
    negative or at most the number of images found. *)
Theorem init_succeeds_iff fs r input_path sh exact_batches shuffle_files :
  is_ok (__init__ fs r input_path sh exact_batches shuffle_files) = true <->
  exists found,
    _find_images fs r input_path shuffle_files = Ok found /\
    shape_0 sh <> 0 /\
    (exact_batches = true -> shape_0 sh < 0 \/ shape_0 sh <= len found).
Proof.
  unfold __init__.
  destruct (_find_images fs r input_path shuffle_files) as [found|e0] eqn:Hf;
    cbn [bind].
  - pose proof (find_images_nonempty _ _ _ _ _ Hf) as Hne.
    destruct (Z.ltb_spec (len found) 1); [lia|].
    destruct (Z.eq_dec (shape_0 sh) 0) as [E0|E0].
    + split.
      * rewrite E0. destruct exact_batches; simpl.
        -- discriminate.
        -- destruct (_handle_tensor_shape sh). discriminate.
      * intros (found' & _ & Hb & _). contradiction.
    + destruct exact_batches.
      * pose proof (proj1 (handle_exact_batches_outcome found (shape_0 sh)
                             Hne E0)) as Hex.
        destruct (_handle_exact_batches found (len found) (shape_0 sh) true)
          as [[imgs n]|e1]; cbn [bind].
        -- destruct (_handle_tensor_shape sh). unfold py_int_truediv.
           destruct (Z.eqb_spec (shape_0 sh) 0); [contradiction|]. simpl.
           split; [|reflexivity]. intros _. exists found.
           split; [reflexivity|]. split; [assumption|].
           intros _. now apply Hex.
        -- simpl. split; [discriminate|].
           intros (found' & Hf' & _ & Hc). inversion Hf'; subst found'.
           specialize (Hc eq_refl). apply Hex in Hc. discriminate Hc.
      * simpl. destruct (_handle_tensor_shape sh). unfold py_int_truediv.
        destruct (Z.eqb_spec (shape_0 sh) 0); [contradiction|]. simpl.
        split; [|reflexivity]. intros _. exists found.
        split; [reflexivity|]. split; [assumption|]. discriminate.
  - simpl. split; [discriminate|]. intros (found & Hf' & _). discriminate.
Qed.

(** ** The partition, once more *)

(** What construction with a batch size of at least 1 leaves in the
    object. *)
Lemma init_batches_inv fs r input_path sh exact_batches shuffle_files self :
  __init__ fs r input_path sh exact_batches shuffle_files = Ok self ->
  1 <= batch_size self ->
  exists bn k : nat,
    Z.of_nat bn = batch_size self /\ (1 <= bn)%nat /\
    Z.of_nat k = num_batches self /\
    Z.of_nat (List.length (images self)) = num_images self /\
    (1 <= List.length (images self))%nat /\
    ((k - 1) * bn < List.length (images self) <= k * bn)%nat /\
    batches self =
      map (fun i => firstn bn (skipn (i * bn) (images self))) (seq 0 k) /\
    (exact_batches = true ->
     num_images self mod batch_size self = 0).
Proof.
  intros Hinit Hb.
  destruct (init_ok_inv _ _ _ _ _ _ _ Hinit)
    as (found & Hf & Hne & Hsh & Hbs & Hb0 & Hex & Hts & Hnb & Hbat).
  assert (Hn : 1 <= num_images self /\ num_images self = len (images self) /\
               (exact_batches = true ->
                num_images self mod batch_size self = 0)).
  { destruct exact_batches.
    - rewrite <- Hbs in Hex.
      rewrite handle_exact_batches_true in Hex by assumption.
      destruct (Z.ltb_spec (len found) (batch_size self)); [discriminate|].
      inversion Hex as [[Himg Hnum]].
      assert (1 <= len found / batch_size self)
        by (apply Z.div_le_lower_bound; lia).
      assert (batch_size self * (len found / batch_size self) <= len found)
        by (apply Z.mul_div_le; lia).
      split; [nia|]. split.
      + unfold len. rewrite length_firstn. unfold len in *. lia.
      + intros _. rewrite Z.mul_comm. apply Z.mod_mul. lia.
    - inversion Hex; subst. split; [lia|]. split; [congruence | discriminate]. }
  destruct Hn as (Hn1 & Hnl & Hmod).
  rewrite quot_ceil in Hnb by assumption.
  pose proof (ceil_div_spec (num_images self) (batch_size self) ltac:(lia))
    as Hc.
  rewrite <- Hnb in Hc.
  assert (Hnb1 : 1 <= num_batches self) by nia.
  rewrite batches_as_runs in Hbat by assumption.
  exists (Z.to_nat (batch_size self)), (Z.to_nat (num_batches self)).
  unfold len in Hnl.
  split; [lia|]. split; [lia|]. split; [lia|]. split; [lia|].
  split; [lia|]. split; [nia|]. split; [exact Hbat | exact Hmod].
Qed.

Lemma run_length {A : Type} (l : list A) (bn i : nat) :
  List.length (firstn bn (skipn (i * bn) l)) =
  Nat.min bn (List.length l - i * bn).
Proof. now rewrite length_firstn, length_skipn. Qed.

Lemma nth_error_run {A : Type} (l : list A) (bn i j : nat) :
  (j < bn)%nat ->
  nth_error (firstn bn (skipn (i * bn) l)) j = nth_error l (i * bn + j).
Proof.
  intros Hj. rewrite nth_error_firstn.
  destruct (Nat.ltb_spec j bn); [|lia].
  now rewrite nth_error_skipn.
Qed.

(** X3: with exact_batches and a batch size of at least 1, every batch
    has exactly batch_size members, the batches hold num_batches *
    batch_size = num_images images, and the images left out are fewer than
    batch_size and are the last of the resolved list. *)
Theorem exact_batches_all_full fs r input_path sh shuffle_files found self :
  _find_images fs r input_path shuffle_files = Ok found ->
  __init__ fs r input_path sh true shuffle_files = Ok self ->
  1 <= batch_size self ->
  (forall batch, In batch (batches self) -> len batch = batch_size self) /\
  num_batches self * batch_size self = num_images self /\
  exists dropped,
    found = images self ++ dropped /\ len dropped < batch_size self.
Proof.
  intros Hf Hinit Hb.
  destruct (init_batches_inv _ _ _ _ _ _ _ Hinit Hb)
    as (bn & k & Hbn & Hbn1 & Hk & Hlen & Hl1 & Hbound & Hbat & Hmod).
  specialize (Hmod eq_refl).
  apply Z.mod_divide in Hmod; [|lia]. destruct Hmod as [m Hm].
  assert (Hk1 : (1 <= k)%nat) by (destruct k; [simpl in Hbound; lia | lia]).
  assert (Hkm : List.length (images self) = (k * bn)%nat).
  { assert (Hlo : (Z.of_nat k - 1) * Z.of_nat bn <
                  Z.of_nat (List.length (images self))) by nia.
    assert (Hhi : Z.of_nat (List.length (images self)) <=
                  Z.of_nat k * Z.of_nat bn) by nia.
    rewrite Hlen, Hm, <- Hbn in Hlo, Hhi.
    assert (m = Z.of_nat k) by nia. nia. }
  split; [|split].
  - intros batch Hin. rewrite Hbat in Hin. apply in_map_iff in Hin.
    destruct Hin as (i & <- & Hi). apply in_seq in Hi.
    unfold len. rewrite run_length. nia.
  - nia.
  - destruct (init_ok_inv _ _ _ _ _ _ _ Hinit)
      as (found' & Hf' & Hne & Hsh & Hbs & Hb0 & Hex & _).
    rewrite Hf in Hf'. inversion Hf'; subst found'.
    rewrite <- Hbs in Hex.
    rewrite handle_exact_batches_true in Hex by assumption.
    destruct (Z.ltb_spec (len found) (batch_size self)); [discriminate|].
    inversion Hex as [[Himg Hnum]].
    exists (skipn (Z.to_nat (batch_size self * (len found / batch_size self)))
                  found).
    split; [now rewrite firstn_skipn|].
    unfold len. rewrite length_skipn.
    pose proof (Z.mod_pos_bound (len found) (batch_size self) ltac:(lia)) as Hmb.
    pose proof (Z.div_mod (len found) (batch_size self) ltac:(lia)) as Hdm.
    assert (0 <= len found / batch_size self) by (apply Z.div_pos; lia).
    unfold len in *. nia.
Qed.

Lemma exact_batches_all_full_witness :
  (forall batch, In batch (batches (Demo.batcher (2, 3, 2, 2) true)) ->
                 len batch = 2) /\
  num_batches (Demo.batcher (2, 3, 2, 2) true) * 2 = 4.
Proof.
  destruct (exact_batches_all_full Demo.fs Demo.reversing Demo.data
              (2, 3, 2, 2) false Demo.sorted_images
              (Demo.batcher (2, 3, 2, 2) true) eq_refl eq_refl
              ltac:(vm_compute; discriminate)) as (Hfull & Hnb & _).
  split; [exact Hfull | exact Hnb].
Defined.

(** X4: with a batch size of at least 1, the image at position j of the
    image list is member j mod batch_size of batch j / batch_size, and
    every member of every batch is an image of the list at that position:
    results are mapped back to images by this index arithmetic. *)
Theorem image_index_mapping fs r input_path sh exact_batches shuffle_files
    self :
  __init__ fs r input_path sh exact_batches shuffle_files = Ok self ->
  1 <= batch_size self ->
  let b := Z.to_nat (batch_size self) in
  (forall (j : nat) (p : path), nth_error (images self) j = Some p ->
     exists batch,
       nth_error (batches self) (j / b) = Some batch /\
       nth_error batch (j mod b) = Some p) /\
  (forall (i s : nat) (batch : list path) (p : path),
     nth_error (batches self) i = Some batch ->
     nth_error batch s = Some p ->
     (s < b)%nat /\ nth_error (images self) (i * b + s) = Some p).
Proof.
  intros Hinit Hb. cbv zeta.
  destruct (init_batches_inv _ _ _ _ _ _ _ Hinit Hb)
    as (bn & k & Hbn & Hbn1 & Hk & Hlen & Hl1 & Hbound & Hbat & _).
  replace (Z.to_nat (batch_size self)) with bn by lia.
  assert (Hnth : forall i, (i < k)%nat ->
            nth_error (batches self) i =
            Some (firstn bn (skipn (i * bn) (images self)))).
  { intros i Hi. rewrite Hbat, nth_error_map.
    rewrite (nth_error_nth' _ 0%nat) by (rewrite length_seq; exact Hi).
    now rewrite seq_nth. }
  split.
  - intros j p Hj.
    assert (Hjl : (j < List.length (images self))%nat)
      by (apply nth_error_Some; congruence).
    pose proof (Nat.div_mod_eq j bn) as Hdm.
    pose proof (Nat.mod_upper_bound j bn ltac:(lia)) as Hmb.
    assert (Hq : (j / bn < k)%nat) by nia.
    exists (firstn bn (skipn (j / bn * bn) (images self))).
    split; [now apply Hnth|].
    rewrite nth_error_run by exact Hmb.
    rewrite <- Hj. f_equal. lia.
  - intros i s batch p Hi Hs.
    assert (Hik : (i < k)%nat).
    { assert (Hl : (i < List.length (batches self))%nat)
        by (apply nth_error_Some; congruence).
      now rewrite Hbat, length_map, length_seq in Hl. }
    rewrite (Hnth i Hik) in Hi. inversion Hi; subst batch.
    assert (Hsb : (s < bn)%nat).
    { assert (Hl : (s < List.length
                        (firstn bn (skipn (i * bn) (images self))))%nat)
        by (apply nth_error_Some; congruence).
      rewrite run_length in Hl. lia. }
    split; [exact Hsb|]. now rewrite <- nth_error_run.
Qed.

Lemma image_index_mapping_witness :
  exists batch,
    nth_error (batches (Demo.batcher (2, 3, 2, 2) false)) (3 / 2) = Some batch /\
    nth_error batch (3 mod 2) = Some ["data"; "d.bmp"]%string.
Proof.
  exact (proj1 (image_index_mapping Demo.fs Demo.reversing Demo.data
                  (2, 3, 2, 2) false false (Demo.batcher (2, 3, 2, 2) false)
                  eq_refl ltac:(vm_compute; discriminate))
           3%nat ["data"; "d.bmp"]%string eq_refl).
Defined.

(** ** Shuffling, single files, repeated entries *)

Lemma shuffle_singleton (r : rng) (p : path) : shuffle r [p] = [p].
Proof.
  pose proof (shuffle_perm r [p]) as Hp.
  now apply Permutation_length_1_inv in Hp.
Qed.

Lemma shuffle_nil_iff (r : rng) (l : list path) : shuffle r l = [] <-> l = [].
Proof.
  pose proof (shuffle_perm r l) as Hp. split; intros H.
  - rewrite H in Hp. now apply Permutation_sym, Permutation_nil in Hp.
  - subst l. now apply Permutation_nil in Hp.
Qed.

(** Shuffled or not, discovery fails alike and resolves the same images. *)
Lemma find_images_shuffle fs r input_path :
  (forall e, _find_images fs r input_path false = Err e <->
             _find_images fs r input_path true = Err e) /\
  (forall l1 l2, _find_images fs r input_path false = Ok l1 ->
                 _find_images fs r input_path true = Ok l2 ->
                 Permutation l1 l2).
Proof.
  unfold _find_images.
  destruct (negb (fs_exists fs input_path)); [split; [tauto | discriminate]|].
  pose proof (shuffle_perm r (discover fs input_path)) as Hp.
  pose proof (shuffle_nil_iff r (discover fs input_path)) as Hnil.
  destruct (discover fs input_path) as [|p l] eqn:Hd.
  - rewrite (proj2 Hnil eq_refl). split; [tauto | discriminate].
  - destruct (shuffle r (p :: l)) as [|q l'] eqn:Hs.
    + pose proof (proj1 Hnil eq_refl) as Hc. discriminate Hc.
    + split; [split; discriminate|].
      intros l1 l2 H1 H2. inversion H1; inversion H2; subst. exact Hp.
Qed.

Lemma init_error_by_length fs r input_path sh exact_batches sf1 sf2 l1 l2 e :
  _find_images fs r input_path sf1 = Ok l1 ->
  _find_images fs r input_path sf2 = Ok l2 ->
  len l1 = len l2 ->
  __init__ fs r input_path sh exact_batches sf1 = Err e ->
  __init__ fs r input_path sh exact_batches sf2 = Err e.
Proof.
  intros H1 H2 Hlen. unfold __init__. rewrite H1, H2. cbn [bind].
  rewrite Hlen. destruct (len l2 <? 1); [auto|].
  unfold _handle_exact_batches, py_floordiv.
  destruct exact_batches.
  - destruct (shape_0 sh =? 0); cbn [bind]; [auto|].
    destruct (shape_0 sh * (len l2 / shape_0 sh) <? 1); cbn [bind]; [auto|].
    destruct (_handle_tensor_shape sh).
    destruct (py_int_truediv _ _); cbn [bind]; [discriminate | auto].
  - cbn [bind]. destruct (_handle_tensor_shape sh).
    destruct (py_int_truediv _ _); cbn [bind]; [discriminate | auto].
Qed.

(** X5: shuffle_files changes neither whether construction succeeds, nor
    the error it raises, nor the numbers of images and of batches, nor the
    inferred width and height; without exact_batches the images of the
    shuffled batcher are a permutation of those of the unshuffled one. *)
Theorem shuffle_invariance fs r input_path sh exact_batches :
  (forall e, __init__ fs r input_path sh exact_batches false = Err e <->
             __init__ fs r input_path sh exact_batches true = Err e) /\
  (forall s1 s2,
     __init__ fs r input_path sh exact_batches false = Ok s1 ->
     __init__ fs r input_path sh exact_batches true = Ok s2 ->
     num_images s1 = num_images s2 /\
     num_batches s1 = num_batches s2 /\
     List.length (batches s1) = List.length (batches s2) /\
     (width s1, height s1) = (width s2, height s2) /\
     (exact_batches = false -> Permutation (images s1) (images s2))).
Proof.
  destruct (find_images_shuffle fs r input_path) as [Herr Hperm].
  split.
  - intros e.
    destruct (_find_images fs r input_path false) as [l1|e1] eqn:H1;
      destruct (_find_images fs r input_path true) as [l2|e2] eqn:H2.
    + pose proof (Permutation_length (Hperm l1 l2 eq_refl eq_refl)) as Hl.
      assert (Hlen : len l1 = len l2) by (unfold len; now rewrite Hl).
      split; intros He.
      * exact (init_error_by_length fs r input_path sh exact_batches
                 false true l1 l2 e H1 H2 Hlen He).
      * exact (init_error_by_length fs r input_path sh exact_batches
                 true false l2 l1 e H2 H1 (eq_sym Hlen) He).
    + pose proof (proj2 (Herr e2) eq_refl) as Hc. discriminate.
    + pose proof (proj1 (Herr e1) eq_refl) as Hc. discriminate.
    + pose proof (proj1 (Herr e1) eq_refl) as Hc. inversion Hc; subst e2.
      unfold __init__. rewrite H1, H2. tauto.
  - intros s1 s2 Hs1 Hs2.
    destruct (init_ok_inv _ _ _ _ _ _ _ Hs1)
      as (l1 & H1 & _ & _ & Hb1 & _ & Hex1 & Hts1 & Hnb1 & Hbat1).
    destruct (init_ok_inv _ _ _ _ _ _ _ Hs2)
      as (l2 & H2 & _ & _ & Hb2 & _ & Hex2 & Hts2 & Hnb2 & Hbat2).
    pose proof (Hperm l1 l2 H1 H2) as Hp.
    assert (Hlen : len l1 = len l2)
      by (unfold len; now rewrite (Permutation_length Hp)).
    assert (Hn : num_images s1 = num_images s2 /\
                 (exact_batches = false -> Permutation (images s1) (images s2))).
    { unfold _handle_exact_batches in Hex1, Hex2. rewrite Hlen in Hex1.
      destruct exact_batches.
      - destruct (py_floordiv (len l2) (shape_0 sh)) as [q|]; cbn [bind] in *;
          [|discriminate].
        destruct (shape_0 sh * q <? 1); [discriminate|].
        inversion Hex1; inversion Hex2; subst. split; [congruence|discriminate].
      - inversion Hex1; inversion Hex2; subst. split; [congruence|].
        intros _. congruence. }
    destruct Hn as [Hn Hpi].
    assert (Hnb : num_batches s1 = num_batches s2) by congruence.
    split; [exact Hn|]. split; [exact Hnb|].
    split; [rewrite Hbat1, Hbat2, !length_map, !range_length; congruence|].
    split; [congruence | exact Hpi].
Qed.

(** X6: a root that exists and is not a directory gives, for every batch
    size of at least 1 and without exact_batches, the one batch holding the
    root alone; with exact_batches the same for batch size 1, and
    InsufficientInputError for any larger batch size. *)
Theorem single_file_root fs r input_path sh shuffle_files :
  fs_exists fs input_path = true ->
  fs_is_dir fs input_path = false ->
  1 <= shape_0 sh ->
  (exists self,
     __init__ fs r input_path sh false shuffle_files = Ok self /\
     images self = [input_path] /\ num_batches self = 1 /\
     batches self = [[input_path]]) /\
  (shape_0 sh = 1 ->
   exists self,
     __init__ fs r input_path sh true shuffle_files = Ok self /\
     images self = [input_path] /\ batches self = [[input_path]]) /\
  (2 <= shape_0 sh ->
   __init__ fs r input_path sh true shuffle_files = Err InsufficientInputError).
Proof.
  intros He Hd Hb.
  assert (Hf : _find_images fs r input_path shuffle_files = Ok [input_path]).
  { unfold _find_images, discover. rewrite He, Hd. simpl.
    destruct shuffle_files; [now rewrite shuffle_singleton | reflexivity]. }
  assert (Hone : forall exact_batches self,
    __init__ fs r input_path sh exact_batches shuffle_files = Ok self ->
    images self = [input_path] -> num_images self = 1 ->
    num_batches self = 1 /\ batches self = [[input_path]]).
  { intros ex self Hinit Himg Hnum.
    destruct (init_ok_inv _ _ _ _ _ _ _ Hinit)
      as (found & _ & _ & _ & Hbs & _ & _ & _ & Hnb & Hbat).
    rewrite Hnum, Hbs in Hnb. simpl (1 - 1) in Hnb.
    rewrite Z.quot_0_l in Hnb by lia. simpl in Hnb.
    split; [exact Hnb|].
    rewrite Hbat, Hnb, Himg, Hbs. unfold range.
    change (Z.to_nat 1) with 1%nat. cbn [seq map].
    change (Z.of_nat 0) with 0.
    replace (0 * shape_0 sh) with 0 by lia.
    replace ((0 + 1) * shape_0 sh) with (shape_0 sh) by lia.
    rewrite py_slice_prefix by lia.
    destruct (Z.to_nat (shape_0 sh)) eqn:E; [lia|].
    cbn [firstn]. now rewrite firstn_nil. }
  split; [|split].
  - destruct (init_after_exact fs r input_path sh false shuffle_files
                [input_path] [input_path] 1 Hf ltac:(lia) eq_refl)
      as (self & Hinit & Himg & Hnum).
    destruct (Hone false self Hinit Himg Hnum) as [Hnb Hbat].
    exists self. auto.
  - intros H1.
    assert (Hex : _handle_exact_batches [input_path] (len [input_path])
                    (shape_0 sh) true = Ok ([input_path], 1))
      by (rewrite H1; reflexivity).
    destruct (init_after_exact fs r input_path sh true shuffle_files
                [input_path] [input_path] 1 Hf ltac:(lia) Hex)
      as (self & Hinit & Himg & Hnum).
    destruct (Hone true self Hinit Himg Hnum) as [Hnb Hbat].
    exists self. auto.
  - intros H2. unfold __init__. rewrite Hf. cbn [bind].
    destruct (Z.ltb_spec (len [input_path]) 1) as [Hc|_];
      [unfold len in Hc; simpl in Hc; lia|].
    rewrite handle_exact_batches_true by assumption.
    destruct (Z.ltb_spec (len [input_path]) (shape_0 sh)) as [_|Hc];
      [reflexivity | unfold len in Hc; simpl in Hc; lia].
Qed.

Lemma single_file_root_witness :
  exists self,
    __init__ Demo.fs Demo.reversing ["single.txt"%string] (4, 3, 2, 2)
      false true = Ok self /\
    images self = [["single.txt"%string]] /\ num_batches self = 1 /\
    batches self = [[["single.txt"%string]]].
Proof.
  exact (proj1 (single_file_root Demo.fs Demo.reversing ["single.txt"%string]
                  (4, 3, 2, 2) true eq_refl eq_refl ltac:(simpl; lia))).
Defined.

(** ** Which entries are images *)

Lemma lower_ascii_dot (c : ascii) : lower_ascii c = "."%char -> c = "."%char.
Proof.
  destruct c as [[|] [|] [|] [|] [|] [|] [|] [|]]; vm_compute;
    intros H; try discriminate H; reflexivity.
Qed.

Lemma lower_length (s : string) : String.length (lower s) = String.length s.
Proof. induction s as [|c s IH]; simpl; auto. Qed.

Lemma from_last_dot_lower (s : string) :
  from_last_dot (lower s) = None -> from_last_dot s = None.
Proof.
  induction s as [|c s IH]; simpl; auto.
  destruct (from_last_dot (lower s)); [discriminate|].
  rewrite IH by reflexivity.
  destruct (Ascii.eqb_spec (lower_ascii c) "."); [discriminate|].
  intros _. destruct (Ascii.eqb_spec c "."); [|reflexivity].
  subst c. exfalso. auto.
Qed.

Lemma from_last_dot_suffix (s t : string) :
  from_last_dot s = Some t -> exists pre, s = (pre ++ t)%string.
Proof.
  revert t. induction s as [|c s IH]; intros t; simpl; [discriminate|].
  destruct (from_last_dot s) as [t'|].
  - intros H; inversion H; subst.
    destruct (IH t eq_refl) as [pre Hp].
    exists (String c pre). simpl. now rewrite <- Hp.
  - destruct (Ascii.eqb c "."); [|discriminate].
    intros H; inversion H; subst. exists EmptyString. reflexivity.
Qed.

Lemma from_last_dot_app (pre s t : string) :
  from_last_dot s = Some t -> from_last_dot (pre ++ s) = Some t.
Proof.
  intros H. induction pre as [|c pre IH]; simpl; auto. now rewrite IH.
Qed.

(** An extension, in any letter case: a dot, then letters without a dot. *)
Lemma extension_shape (ext : string) :
  In (lower ext) extensions ->
  from_last_dot ext = Some ext /\ (1 < String.length ext)%nat.
Proof.
  intros Hin.
  assert (Hl : (1 < String.length (lower ext))%nat /\
               exists rest, lower ext = String "." rest /\
                            from_last_dot rest = None).
  { unfold extensions in Hin. simpl in Hin.
    destruct Hin as [<-|[<-|[<-|[<-|[]]]]]; (split; [simpl; lia|]);
      eexists; split; reflexivity. }
  destruct Hl as (Hlen & rest & Hr & Hnone).
  rewrite lower_length in Hlen. split; [|exact Hlen].
  destruct ext as [|c ext']; [discriminate|].
  simpl in Hr. inversion Hr as [[Hc Hrest]].
  apply lower_ascii_dot in Hc. subst c. simpl.
  rewrite from_last_dot_lower by (rewrite Hrest; exact Hnone).
  reflexivity.
Qed.

(** X7: a directory entry is taken for an image exactly when it is a
    regular file whose name is a non-empty stem followed by .jpg, .jpeg,
    .png or .bmp in any letter case; a name that is only an extension, or
    that carries something after the extension, is not. *)
Theorem is_image_by_name fs (p : path) (name : string) :
  is_image fs (p ++ [name]) = true <->
  fs_is_file fs (p ++ [name]) = true /\
  exists stem ext : string,
    name = (stem ++ ext)%string /\ stem <> EmptyString /\
    In (lower ext) extensions.
Proof.
  rewrite is_image_child. split; intros [Hf Hn]; (split; [exact Hf|]).
  - unfold name_suffix in Hn.
    destruct name as [|a rest]; [simpl in Hn; intuition discriminate|].
    destruct (from_last_dot rest) as [t|] eqn:Ht;
      [|simpl in Hn; intuition discriminate].
    destruct (Nat.ltb_spec 1 (String.length t));
      [|simpl in Hn; intuition discriminate].
    destruct (from_last_dot_suffix rest t Ht) as [pre Hp].
    exists (String a pre), t. split; [simpl; now rewrite Hp|].
    split; [discriminate | exact Hn].
  - destruct Hn as (stem & ext & -> & Hs & Hext).
    destruct (extension_shape ext Hext) as [Hd Hl].
    destruct stem as [|a stem']; [contradiction|].
    simpl. rewrite (from_last_dot_app stem' ext ext Hd).
    destruct (Nat.ltb_spec 1 (String.length ext)); [exact Hext | lia].
Qed.

(** ** Repeated entries *)

Lemma NoDup_firstn {A : Type} (n : nat) (l : list A) :
  NoDup l -> NoDup (firstn n l).
Proof.
  intros H. rewrite <- (firstn_skipn n l) in H.
  now apply NoDup_app_remove_r in H.
Qed.

Lemma NoDup_skipn {A : Type} (n : nat) (l : list A) :
  NoDup l -> NoDup (skipn n l).
Proof.
  intros H. rewrite <- (firstn_skipn n l) in H.
  now apply NoDup_app_remove_l in H.
Qed.

Lemma NoDup_map_inj {A B : Type} (f : A -> B) (l : list A) :
  (forall a b, f a = f b -> a = b) -> NoDup l -> NoDup (map f l).
Proof.
  intros Hinj H. induction H as [|a l Hn Hl IH]; simpl; constructor; auto.
  intros Hin. apply in_map_iff in Hin. destruct Hin as (b & Hb & Hin).
  apply Hinj in Hb. now subst b.
Qed.

Lemma discover_NoDup fs (p : path) :
  NoDup (fs_listdir fs p) -> NoDup (discover fs p).
Proof.
  intros H. unfold discover. destruct (fs_is_dir fs p).
  - apply (Permutation_NoDup (PathSort.Permuted_sort _)).
    apply NoDup_filter. unfold iterdir.
    apply NoDup_map_inj; [|exact H].
    intros a b Hab. apply app_inj_tail in Hab. tauto.
  - repeat constructor. auto.
Qed.

(** X8: when the directory lists no name twice, no image occurs twice in
    the image list of the batcher, whatever the flags, and so no image is
    a member of two batches or twice a member of one. *)
Theorem images_NoDup fs r input_path sh exact_batches shuffle_files self :
  NoDup (fs_listdir fs input_path) ->
  __init__ fs r input_path sh exact_batches shuffle_files = Ok self ->
  NoDup (images self) /\
  forall batch, In batch (batches self) -> NoDup batch.
Proof.
  intros Hnd Hinit.
  destruct (init_ok_inv _ _ _ _ _ _ _ Hinit)
    as (found & Hf & Hne & _ & _ & _ & Hex & _ & _ & Hbat).
  assert (Hfound : NoDup found).
  { unfold _find_images in Hf.
    destruct (negb (fs_exists fs input_path)); [discriminate|].
    pose proof (discover_NoDup fs input_path Hnd) as Hd.
    assert (Hs : NoDup (if shuffle_files
                        then shuffle r (discover fs input_path)
                        else discover fs input_path)).
    { destruct shuffle_files; [|exact Hd].
      apply (Permutation_NoDup (shuffle_perm r _) Hd). }
    destruct (if shuffle_files then _ else _); [discriminate|].
    inversion Hf; subst. exact Hs. }
  assert (Himg : NoDup (images self)).
  { unfold _handle_exact_batches in Hex. destruct exact_batches.
    - destruct (py_floordiv (len found) (shape_0 sh)); cbn [bind] in Hex;
        [|discriminate].
      destruct (shape_0 sh * a <? 1); [discriminate|].
      inversion Hex; subst. unfold py_slice.
      apply NoDup_firstn, NoDup_skipn, Hfound.
    - inversion Hex; subst. exact Hfound. }
  split; [exact Himg|].
  intros batch Hin. rewrite Hbat in Hin. apply in_map_iff in Hin.
  destruct Hin as (i & <- & _). unfold py_slice.
  apply NoDup_firstn, NoDup_skipn, Himg.
Qed.

Lemma images_NoDup_witness :
  NoDup (images (Demo.batcher (2, 3, 2, 2) false)).
Proof.
  assert (Hnd : NoDup (fs_listdir Demo.fs Demo.data)).
  { change (fs_listdir Demo.fs Demo.data) with Demo.names. unfold Demo.names.
    repeat (apply NoDup_cons; [simpl; intuition discriminate|]).
    apply NoDup_nil. }
  exact (proj1 (images_NoDup Demo.fs Demo.reversing Demo.data (2, 3, 2, 2)
                  false false (Demo.batcher (2, 3, 2, 2) false) Hnd eq_refl)).
Defined.

(** ** What a traversal never does *)

Section TraversalFacts.

Variable D : dtype.
Variable T : Type.
Variable env : collaborators T.





Lemma np_zeros_negative (sh : shape4) :
  shape_0 sh < 0 \/ shape_1 sh < 0 \/ shape_2 sh < 0 \/ shape_3 sh < 0 ->
  np_zeros D sh = Err (ValueError "negative dimensions are not allowed").
Proof.
  destruct sh as [[[n d1] d2] d3]. simpl. intros H. unfold np_zeros.
  destruct (Z.ltb_spec n 0); [reflexivity|].
  destruct (Z.ltb_spec d1 0); [reflexivity|].
  destruct (Z.ltb_spec d2 0); [reflexivity|].
  destruct (Z.ltb_spec d3 0); [reflexivity|]. lia.
Qed.




End TraversalFacts.

(** X9: a shape with a negative component never reaches preprocessing: the
    traversal makes no call to the decoder or to letterbox and yields
    nothing; it ends at once when there is no batch and raises the
    ValueError of np.zeros at the first batch otherwise. *)
Theorem negative_shape_never_preprocesses (D : dtype) (T : Type)
    (env : collaborators T) (self : ImageBatcher) (scheds : nat -> list nat) :
  shape_0 (shape self) < 0 \/ shape_1 (shape self) < 0 \/
  shape_2 (shape self) < 0 \/ shape_3 (shape self) < 0 ->
  __iter__ D T env self scheds =
  ([], [],
   match batches self with
   | [] => StopIteration
   | _ :: _ => Raised (ValueError "negative dimensions are not allowed")
   end).
Proof.
  intros Hneg. unfold __iter__.
  destruct (batches self) as [|b bs]; [reflexivity|].
  simpl. unfold produce_batch.
  now rewrite (np_zeros_negative D (shape self) Hneg).
Qed.

Lemma negative_shape_never_preprocesses_witness :
  Demo.run (2, 3, -1, -1) false [] (Demo.in_order 2) =
  ([], [], Raised (ValueError "negative dimensions are not allowed")).
Proof.
  exact (negative_shape_never_preprocesses Demo.fixed255 (Z * Z) (Demo.env [])
           (Demo.batcher (2, 3, -1, -1) false) (Demo.in_order 2)
           ltac:(right; right; left; vm_compute; reflexivity)).
Defined.

(** X10: a shape whose position 1 does not hold 3, be it channel-last or
    unresolved, never gives a batch: the channel-first array of the first
    image of a batch does not fit the slot of the tensor, so that no
    traversal yields a tuple, and a traversal over at least one batch does
    not run to its end. *)
Theorem no_yield_unless_channel_first (D : dtype) (T : Type)
    (env : collaborators T) (self : ImageBatcher) (scheds : nat -> list nat)
    (tr : list call) (ys : list (batch_tuple D T)) (e : ending) :
  shape_1 (shape self) <> 3 ->
  __iter__ D T env self scheds = (tr, ys, e) ->
  ys = [] /\ (batches self <> [] -> e <> StopIteration).
Proof.
  intros H1 Hit.
  assert (Hys : ys = []).
  { destruct ys as [|[[t imgs] shapes] ys']; [reflexivity|]. exfalso.
    unfold __iter__ in Hit.
    destruct (iter_from_yield D T env self scheds _ _ _ _ _ Hit 0%nat _ eq_refl)
      as (batch & Hb & Hp).
    apply produce_batch_assemble in Hp. symmetry in Hp.
    destruct (assemble_inv D T env self batch imgs t shapes Hp)
      as (-> & Hne & t0 & rs & Hz & Hrs & Hf).
    destruct (np_zeros_inv D _ _ Hz) as (Hnn & Hd & _).
    destruct batch as [|p batch']; [contradiction|].
    destruct rs as [|[im sh] rs']; [discriminate|].
    simpl in Hrs. inversion Hrs as [[Hp0 _]].
    assert (Him : exists a b, dims3 im = (3%nat, a, b)).
    { destruct (imread env p) as [raw|] eqn:Hr.
      - rewrite (preprocess_readable D T env self p raw Hr) in Hp0.
        simpl in Hp0. inversion Hp0; subst. simpl. eauto.
      - rewrite (preprocess_unreadable D T env self p Hr) in Hp0.
        discriminate. }
    destruct Him as (a & b & Him).
    simpl in Hf. unfold setitem in Hf. rewrite Hd, Him in Hf.
    destruct (Nat.leb_spec (Z.to_nat (shape_0 (shape self))) 0);
      [discriminate|].
    unfold broadcastable at 1 in Hf.
    destruct (Nat.eqb_spec 3 (Z.to_nat (shape_1 (shape self)))) as [E|E];
      [lia|].
    simpl in Hf. discriminate. }
  split; [exact Hys|].
  intros Hne He. subst ys e. unfold __iter__ in Hit.
  destruct (batches self) as [|b bs]; [contradiction|].
  simpl in Hit.
  destruct (produce_batch D T env self b (scheds 0%nat)) as [tr0 [[y0|e0]|]];
    try discriminate.
  destruct (iter_from D T env self scheds 1 bs) as [[tr' ys'] e'].
  discriminate.
Qed.

Lemma no_yield_unless_channel_first_witness :
  snd (fst (Demo.run (2, 2, 2, 3) false [] (Demo.in_order 2))) = [] /\
  (batches (Demo.batcher (2, 2, 2, 3) false) <> [] ->
   snd (Demo.run (2, 2, 2, 3) false [] (Demo.in_order 2)) <> StopIteration).
Proof.
  exact (no_yield_unless_channel_first Demo.fixed255 (Z * Z) (Demo.env [])
           (Demo.batcher (2, 2, 2, 3) false) (Demo.in_order 2)
           (fst (fst (Demo.run (2, 2, 2, 3) false [] (Demo.in_order 2))))
           (snd (fst (Demo.run (2, 2, 2, 3) false [] (Demo.in_order 2))))
           (snd (Demo.run (2, 2, 2, 3) false [] (Demo.in_order 2)))
           ltac:(vm_compute; discriminate) eq_refl).
Defined.

(** ** Exceptions and calls of a traversal *)








(** ** The tensor as one contiguous array *)

Lemma flat_map_repeat {A : Type} (z : A) (s start m : nat) :
  flat_map (fun _ : nat => repeat z s) (seq start m) = repeat z (m * s).
Proof.
  revert start. induction m as [|m IH]; intros start; simpl; [reflexivity|].
  now rewrite IH, repeat_app.
Qed.

(** X14: when the preprocessed arrays of a yielded batch have the extents
    of a slot, the flat data of the tensor are these arrays, in the order
    of the batch, one after the other, followed by zeros up to the full
    extent. *)
Theorem batch_tensor_contiguous (D : dtype) (T : Type) (env : collaborators T)
    (self : ImageBatcher) (scheds : nat -> list nat)
    (tr : list call) (ys : list (batch_tuple D T)) (e : ending)
    (k : nat) (t : ndarray4 D) (imgs : list path) (shapes : list T)
    (n d1 d2 d3 : nat) :
  __iter__ D T env self scheds = (tr, ys, e) ->
  nth_error ys k = Some (t, imgs, shapes) ->
  dims4 t = (n, d1, d2, d3) ->
  (forall p im sh, In p imgs ->
     snd (_preprocess_image D T env self p) = Ok (im, sh) ->
     dims3 im = (d1, d2, d3) /\
     List.length (data3 im) = (d1 * d2 * d3)%nat) ->
  exists ims : list (ndarray3 D),
    Forall2 (fun p im => exists sh,
               snd (_preprocess_image D T env self p) = Ok (im, sh)) imgs ims /\
    data4 t = List.concat (map data3 ims) ++
              repeat (zero D) ((n - List.length imgs) * (d1 * d2 * d3)).
Proof.
  intros Hit Hk Hdt Hwf.
  destruct (yield_inv D T env self scheds tr ys e k t imgs shapes Hit Hk)
    as (Hb & t0 & rs & n' & d1' & d2' & d3' & Hz & Hd & Hsh & Hdata & Hrs & Hf).
  assert (Hl0 : List.length (data4 t0) = (n' * (d1' * d2' * d3'))%nat)
    by (rewrite Hdata; apply repeat_length).
  destruct (fill_inv D T rs t0 t [] shapes 0 n' d1' d2' d3' Hf Hd Hl0)
    as (Hdt' & Hlt & _ & Hin & Hout).
  rewrite Hdt in Hdt'. inversion Hdt'; subst n' d1' d2' d3'. clear Hdt'.
  set (s := (d1 * d2 * d3)%nat) in *.
  assert (Hlen : List.length rs = List.length imgs).
  { apply (f_equal (@List.length _)) in Hrs. now rewrite !length_map in Hrs. }
  assert (Hpre : forall i im sh, nth_error rs i = Some (im, sh) ->
            exists p, nth_error imgs i = Some p /\
                      snd (_preprocess_image D T env self p) = Ok (im, sh)).
  { intros i im sh Hi.
    assert (Hm : nth_error (map Ok rs) i = Some (Ok (im, sh)))
      by (rewrite nth_error_map, Hi; reflexivity).
    rewrite <- Hrs, nth_error_map in Hm.
    destruct (nth_error imgs i) as [p|]; [|discriminate].
    exists p. split; [reflexivity|]. simpl in Hm. congruence. }
  assert (Hkn : (List.length rs <= n)%nat).
  { destruct rs as [|r rs'] eqn:Hrs'; [simpl; lia|].
    destruct (nth_error (r :: rs') (List.length rs')) as [[im sh]|] eqn:Hlast.
    - destruct (Hin _ im sh Hlast) as [Hlt' _]. simpl in *. lia.
    - apply nth_error_None in Hlast. simpl in Hlast. lia. }
  exists (map fst rs). split.
  - clear - Hrs. revert rs Hrs.
    induction imgs as [|p imgs IH]; intros [|[im sh] rs] Hrs; simpl in *;
      try discriminate; constructor.
    + exists sh. now inversion Hrs.
    + apply IH. now inversion Hrs.
  - assert (Hslots : data4 t =
              flat_map (fun i => firstn s (skipn (0 + i * s) (data4 t)))
                       (seq 0 n)).
    { rewrite flat_map_runs. simpl. symmetry. apply firstn_all2. lia. }
    rewrite Hslots at 1.
    replace n with (List.length rs + (n - List.length rs))%nat at 1 by lia.
    rewrite seq_app, flat_map_app. rewrite <- Hlen. f_equal.
    + rewrite flat_map_concat_map. f_equal.
      apply nth_error_ext. intros i.
      rewrite !nth_error_map.
      destruct (nth_error rs i) as [[im sh]|] eqn:Hi; simpl.
      * assert (Hil : (i < List.length rs)%nat)
          by (apply nth_error_Some; congruence).
        rewrite (nth_error_nth' _ 0%nat) by (rewrite length_seq; exact Hil).
        rewrite seq_nth by exact Hil. simpl. f_equal.
        destruct (Hin i im sh Hi) as [_ Hslot].
        destruct (Hpre i im sh Hi) as (p & Hp & Hpp).
        destruct (Hwf p im sh (nth_error_In _ _ Hp) Hpp) as [Hdim Hdl].
        unfold slot, slot_size in Hslot. rewrite Hdt in Hslot.
        simpl in Hslot. fold s in Hslot. rewrite Hslot.
        now apply broadcast_to_same.
      * apply nth_error_None in Hi.
        destruct (nth_error (seq 0 (List.length rs)) i) eqn:Hs; [|reflexivity].
        assert (Hsl : (i < List.length (seq 0 (List.length rs)))%nat)
          by (apply nth_error_Some; congruence).
        rewrite length_seq in Hsl. lia.
    + rewrite <- (flat_map_repeat (zero D) s (0 + List.length rs)
                    (n - List.length rs)).
      rewrite !flat_map_concat_map. f_equal.
      apply map_ext_in. intros j Hj. apply in_seq in Hj.
      specialize (Hout j ltac:(right; simpl; lia)).
      unfold slot, slot_size in Hout. rewrite Hdt, Hd in Hout.
      fold s in Hout. simpl. rewrite Hout, Hdata. apply zero_run. lia.
Qed.

Lemma batch_tensor_contiguous_witness :
  exists ims : list (ndarray3 Demo.fixed255),
    Forall2 (fun p im => exists sh,
               snd (_preprocess_image Demo.fixed255 (Z * Z) (Demo.env [])
                      (Demo.batcher (2, 3, 2, 2) false) p) = Ok (im, sh))
            [["data"; "e.JPG"]]%string ims /\
    data4 (fst (fst (Demo.yielded (2, 3, 2, 2) false [] (Demo.reversed 2) 2))) =
    List.concat (map data3 ims) ++ repeat 0 ((2 - 1) * (3 * 2 * 2)).
Proof.
  apply (batch_tensor_contiguous Demo.fixed255 (Z * Z) (Demo.env [])
           (Demo.batcher (2, 3, 2, 2) false) (Demo.reversed 2)
           (fst (fst (Demo.run (2, 3, 2, 2) false [] (Demo.reversed 2))))
           (snd (fst (Demo.run (2, 3, 2, 2) false [] (Demo.reversed 2))))
           (snd (Demo.run (2, 3, 2, 2) false [] (Demo.reversed 2)))
           2%nat
           (fst (fst (Demo.yielded (2, 3, 2, 2) false [] (Demo.reversed 2) 2)))
           [["data"; "e.JPG"]]%string
           (snd (Demo.yielded (2, 3, 2, 2) false [] (Demo.reversed 2) 2))
           2%nat 3%nat 2%nat 2%nat eq_refl eq_refl eq_refl).
  intros p im sh [<-|[]] Hp. vm_compute in Hp. inversion Hp; subst.
  split; reflexivity.
Defined.

(** ** Negative batch sizes *)


